(** * telegram-auth: verification of Telegram Login Widget callback data

    A shallow embedding of [verify.go] (package [telegramauth]) together with
    the parts of the Go standard library the package calls ([strings],
    [strconv], [encoding/hex], [crypto/sha256], [crypto/hmac], [sort],
    [time], [net/url]), followed by the properties of the verification
    routine.

    Conventions.
    - A Go [string] is a sequence of bytes: [string] (a list of 8-bit
      [ascii]).  A [[]byte] is a [list Z] of values in [0, 256).
    - [map[string]string] is [gmap string string]; reading a missing key
      gives the empty string, as Go's zero value does.
    - [int64] and [time.Duration] are [Z] with the wrap-around of the
      machine operations written out ([wrap64]).
    - A Go result pair [(AuthData, error)] is a Coq pair whose second
      component is an [option error]; [None] is Go's [nil]. *)

From Stdlib Require Import ZArith Lia List Ascii String Sorting.Sorted Permutation.
From stdpp Require Import base option list strings sorting gmap fin_maps.

Local Open Scope string_scope.
Local Open Scope Z_scope.

(** ** Bytes and strings *)

Definition byte_of_ascii (c : ascii) : Z := Z.of_N (N_of_ascii c).
Definition ascii_of_byte (b : Z) : ascii := ascii_of_N (Z.to_N b).

(** [[]byte(s)] *)
Definition bytes (s : string) : list Z :=
  List.map byte_of_ascii (list_ascii_of_string s).

(** [string(b)] *)
Definition string_of_bytes (b : list Z) : string :=
  string_of_list_ascii (List.map ascii_of_byte b).

(** ** crypto/sha256 (FIPS 180-4) *)

Module sha256.

Definition mask32 (x : Z) : Z := Z.land x 4294967295.
Definition add32 (x y : Z) : Z := mask32 (x + y).
Definition rotr (n x : Z) : Z :=
  Z.lor (Z.shiftr x n) (mask32 (Z.shiftl x (32 - n))).
Definition not32 (x : Z) : Z := Z.lxor x 4294967295.

Definition Ch (x y z : Z) : Z := Z.lxor (Z.land x y) (Z.land (not32 x) z).
Definition Maj (x y z : Z) : Z :=
  Z.lxor (Z.lxor (Z.land x y) (Z.land x z)) (Z.land y z).
Definition Sigma0 (x : Z) : Z :=
  Z.lxor (Z.lxor (rotr 2 x) (rotr 13 x)) (rotr 22 x).
Definition Sigma1 (x : Z) : Z :=
  Z.lxor (Z.lxor (rotr 6 x) (rotr 11 x)) (rotr 25 x).
Definition sigma0 (x : Z) : Z :=
  Z.lxor (Z.lxor (rotr 7 x) (rotr 18 x)) (Z.shiftr x 3).
Definition sigma1 (x : Z) : Z :=
  Z.lxor (Z.lxor (rotr 17 x) (rotr 19 x)) (Z.shiftr x 10).

(** The first sixty-four primes. *)
Definition primes : list Z :=
  [2; 3; 5; 7; 11; 13; 17; 19; 23; 29; 31; 37; 41; 43; 47; 53; 59; 61; 67; 71;
   73; 79; 83; 89; 97; 101; 103; 107; 109; 113; 127; 131; 137; 139; 149; 151;
   157; 163; 167; 173; 179; 181; 191; 193; 197; 199; 211; 223; 227; 229; 233;
   239; 241; 251; 257; 263; 269; 271; 277; 281; 283; 293; 307; 311].

(** The integer cube root below [2 ^ bits], one bit at a time. *)
Fixpoint cbrt_bits (bits : nat) (n r : Z) : Z :=
  match bits with
  | O => r
  | S bits' =>
      let r' := r + 2 ^ Z.of_nat bits' in
      cbrt_bits bits' n (if r' * r' * r' <=? n then r' else r)
  end.

(** The round constants: the first thirty-two bits of the fractional parts
    of the cube roots of the first sixty-four primes (FIPS 180-4, 4.2.2). *)
Definition K : list Z :=
  Eval vm_compute in
    List.map (fun p => mask32 (cbrt_bits 36 (p * 2 ^ 96) 0)) primes.

(** The initial hash value: the same of the square roots of the first eight
    primes (FIPS 180-4, 5.3.3). *)
Definition H0 : list Z :=
  Eval vm_compute in
    List.map (fun p => mask32 (Z.sqrt (p * 2 ^ 64))) (firstn 8 primes).

Definition BlockSize : nat := 64.
Definition Size : nat := 32.

(** Big-endian encoding of [x] on [n] bytes. *)
Fixpoint be_bytes (n : nat) (x : Z) : list Z :=
  match n with
  | O => []
  | S n' => Z.land (Z.shiftr x (8 * Z.of_nat n')) 255 :: be_bytes n' x
  end.

Definition be_word (bs : list Z) : Z :=
  fold_left (fun acc b => Z.lor (Z.shiftl acc 8) b) bs 0.

(** The message followed by 0x80, zero bytes up to 56 mod 64, and the bit
    length on eight bytes. *)
Definition pad (msg : list Z) : list Z :=
  let len := Z.of_nat (length msg) in
  let zeros := Z.to_nat ((55 - len) mod 64) in
  msg ++ 128 :: repeat 0 zeros ++ be_bytes 8 (8 * len).

Fixpoint chunks (fuel : nat) (n : nat) (l : list Z) : list (list Z) :=
  match fuel with
  | O => []
  | S fuel' =>
      match l with
      | [] => []
      | _ => firstn n l :: chunks fuel' n (skipn n l)
      end
  end.

Definition words (block : list Z) : list Z :=
  List.map be_word (chunks 16 4 block).

(** Message schedule, most recent word first. *)
Fixpoint extend (n : nat) (w : list Z) : list Z :=
  match n with
  | O => w
  | S n' =>
      let x := add32 (add32 (sigma1 (nth 1 w 0)) (nth 6 w 0))
                     (add32 (sigma0 (nth 14 w 0)) (nth 15 w 0)) in
      extend n' (x :: w)
  end.

Definition schedule (block : list Z) : list Z :=
  rev (extend 48 (rev (words block))).

Definition round (s : list Z) (kw : Z * Z) : list Z :=
  match s with
  | [a; b; c; d; e; f; g; h] =>
      let t1 := add32 (add32 (add32 h (Sigma1 e)) (Ch e f g))
                      (add32 (fst kw) (snd kw)) in
      let t2 := add32 (Sigma0 a) (Maj a b c) in
      [add32 t1 t2; a; b; c; add32 d t1; e; f; g]
  | _ => s
  end.

Definition compress (h : list Z) (block : list Z) : list Z :=
  let s := fold_left round (combine K (schedule block)) h in
  List.map (fun p => add32 (fst p) (snd p)) (combine h s).

(** [sha256.Sum256] *)
Definition Sum256 (msg : list Z) : list Z :=
  let p := pad msg in
  let h := fold_left compress (chunks (length p) BlockSize p) H0 in
  flat_map (be_bytes 4) h.

End sha256.

(** ** crypto/hmac (RFC 2104) over SHA-256 *)

Module hmac.

Definition xor_pad (c : Z) (key : list Z) : list Z :=
  List.map (fun b => Z.lxor b c) key.

(** [hmac.New(sha256.New, key)]: a key longer than the block is hashed
    first, then the key is zero-padded to the block size. *)
Definition block_key (key : list Z) : list Z :=
  let k := if Nat.ltb sha256.BlockSize (length key)
           then sha256.Sum256 key else key in
  k ++ repeat 0 (sha256.BlockSize - length k)%nat.

(** [h := hmac.New(sha256.New, key); h.Write(msg); h.Sum(nil)] *)
Definition Sum (key msg : list Z) : list Z :=
  let k := block_key key in
  sha256.Sum256 (xor_pad 0x5c k ++ sha256.Sum256 (xor_pad 0x36 k ++ msg)).

(** [hmac.Equal]: [subtle.ConstantTimeCompare(a, b) == 1], which is false
    on slices of different lengths and otherwise compares every byte. *)
Fixpoint Equal (a b : list Z) : bool :=
  match a, b with
  | [], [] => true
  | x :: a', y :: b' => Z.eqb x y && Equal a' b'
  | _, _ => false
  end.

End hmac.

(** ** encoding/hex *)

Module hex.

(** [reverseHexTable]: the value of a hexadecimal digit of either case. *)
Definition fromHexChar (c : Z) : option Z :=
  if (48 <=? c) && (c <=? 57) then Some (c - 48)
  else if (97 <=? c) && (c <=? 102) then Some (c - 97 + 10)
  else if (65 <=? c) && (c <=? 70) then Some (c - 65 + 10)
  else None.

(** [hex.Decode]: pairs of digits; an invalid digit or an odd length is an
    error ([None]). *)
Fixpoint Decode (src : list Z) : option (list Z) :=
  match src with
  | [] => Some []
  | [_] => None
  | p :: q :: rest =>
      match fromHexChar p, fromHexChar q with
      | Some a, Some b =>
          match Decode rest with
          | Some out => Some (Z.lor (Z.shiftl a 4) b :: out)
          | None => None
          end
      | _, _ => None
      end
  end.

(** [hex.DecodeString] *)
Definition DecodeString (s : string) : option (list Z) := Decode (bytes s).

Definition hextable (n : Z) : Z := if n <? 10 then 48 + n else 97 + (n - 10).

(** [hex.EncodeToString]: lower-case digits. *)
Definition EncodeToString (b : list Z) : string :=
  string_of_bytes
    (flat_map (fun x => [hextable (Z.shiftr x 4); hextable (Z.land x 15)]) b).

End hex.

(** ** Machine integers *)

Definition MaxInt64 : Z := 9223372036854775807.
Definition MinInt64 : Z := -9223372036854775808.
Definition MaxUint64 : Z := 18446744073709551615.

(** The value of an [int64] operation whose mathematical result is [x]. *)
Definition wrap64 (x : Z) : Z := (x + 2 ^ 63) mod 2 ^ 64 - 2 ^ 63.

Definition int64 (x : Z) : Prop := MinInt64 <= x <= MaxInt64.

(** ** strings, unicode *)

Module unicode.

(** The code points with the Unicode [White_Space] property, which is what
    [unicode.IsSpace] tests. *)
Definition White_Space : list Z :=
  [ 0x09; 0x0A; 0x0B; 0x0C; 0x0D; 0x20; 0x85; 0xA0; 0x1680;
    0x2000; 0x2001; 0x2002; 0x2003; 0x2004; 0x2005; 0x2006; 0x2007;
    0x2008; 0x2009; 0x200A; 0x2028; 0x2029; 0x202F; 0x205F; 0x3000 ].

(** [utf8.AppendRune] on the Basic Multilingual Plane. *)
Definition EncodeRune (r : Z) : list Z :=
  if r <? 0x80 then [r]
  else if r <? 0x800 then
    [Z.lor 0xC0 (Z.shiftr r 6); Z.lor 0x80 (Z.land r 0x3F)]
  else
    [Z.lor 0xE0 (Z.shiftr r 12);
     Z.lor 0x80 (Z.land (Z.shiftr r 6) 0x3F);
     Z.lor 0x80 (Z.land r 0x3F)].

End unicode.

Module strings.

(** [asciiSpace]: tab, line feed, vertical tab, form feed, carriage
    return, space. *)
Definition asciiSpace (b : Z) : bool := ((9 <=? b) && (b <=? 13)) || (b =? 32).

(** U+0085 and U+00A0 in UTF-8. *)
Definition space2 (b1 b2 : Z) : bool :=
  (b1 =? 0xC2) && ((b2 =? 0x85) || (b2 =? 0xA0)).

(** U+1680, U+2000..U+200A, U+2028, U+2029, U+202F, U+205F and U+3000 in
    UTF-8. *)
Definition space3 (b1 b2 b3 : Z) : bool :=
  ((b1 =? 0xE1) && (b2 =? 0x9A) && (b3 =? 0x80))
  || ((b1 =? 0xE2) && (b2 =? 0x80)
      && (((0x80 <=? b3) && (b3 <=? 0x8A))
          || (b3 =? 0xA8) || (b3 =? 0xA9) || (b3 =? 0xAF)))
  || ((b1 =? 0xE2) && (b2 =? 0x81) && (b3 =? 0x9F))
  || ((b1 =? 0xE3) && (b2 =? 0x80) && (b3 =? 0x80)).

(** Width of the white-space rune that [utf8.DecodeRuneInString] finds at
    the head of [s]; [0] when the first rune is not white space.  A byte
    sequence that is not valid UTF-8 decodes to U+FFFD, which is not white
    space, and every white-space code point has exactly one encoding. *)
Definition spaceWidth (s : list Z) : nat :=
  match s with
  | b1 :: b2 :: b3 :: _ =>
      if asciiSpace b1 then 1
      else if space2 b1 b2 then 2
      else if space3 b1 b2 b3 then 3 else 0
  | b1 :: b2 :: _ =>
      if asciiSpace b1 then 1 else if space2 b1 b2 then 2 else 0
  | b1 :: _ => if asciiSpace b1 then 1 else 0
  | [] => 0
  end%nat.

(** The same for [utf8.DecodeLastRuneInString], on the bytes of the string
    read from its end. *)
Definition lastSpaceWidth (r : list Z) : nat :=
  match r with
  | b3 :: b2 :: b1 :: _ =>
      if asciiSpace b3 then 1
      else if space2 b2 b3 then 2
      else if space3 b1 b2 b3 then 3 else 0
  | b2 :: b1 :: _ =>
      if asciiSpace b2 then 1 else if space2 b1 b2 then 2 else 0
  | b1 :: _ => if asciiSpace b1 then 1 else 0
  | [] => 0
  end%nat.

(** The loop of [indexFunc] / [lastIndexFunc]: skip runes while [width]
    reports white space. *)
Fixpoint skipWhile (width : list Z -> nat) (fuel : nat) (s : list Z) : list Z :=
  match fuel with
  | O => s
  | S fuel' =>
      match width s with
      | O => s
      | n => skipWhile width fuel' (skipn n s)
      end
  end.

(** [strings.TrimLeftFunc(s, unicode.IsSpace)] *)
Definition TrimLeft (s : list Z) : list Z :=
  skipWhile spaceWidth (length s) s.

(** [strings.TrimRightFunc(s, unicode.IsSpace)] *)
Definition TrimRight (s : list Z) : list Z :=
  rev (skipWhile lastSpaceWidth (length s) (rev s)).

(** [strings.TrimSpace]: leading and trailing white space, as defined by
    Unicode, removed. *)
Definition TrimSpace (s : string) : string :=
  string_of_bytes (TrimRight (TrimLeft (bytes s))).

(** [strings.Join] *)
Definition Join (elems : list string) (sep : string) : string :=
  String.concat sep elems.

End strings.

(** ** strconv *)

Module strconv.

Inductive NumError := ErrSyntax | ErrRange.

(** The digit loop of [strconv.ParseUint(s, 10, 64)]. *)
Fixpoint parseDigits (cs : list Z) (n : Z) : Z * option NumError :=
  match cs with
  | [] => (n, None)
  | c :: rest =>
      if (48 <=? c) && (c <=? 57) then
        let d := c - 48 in
        if n >=? MaxUint64 / 10 + 1 then (MaxUint64, Some ErrRange)
        else
          let n1 := n * 10 + d in
          if n1 >? MaxUint64 then (MaxUint64, Some ErrRange)
          else parseDigits rest n1
      else (0, Some ErrSyntax)
  end.

Definition ParseUint (s : list Z) : Z * option NumError :=
  match s with
  | [] => (0, Some ErrSyntax)
  | _ => parseDigits s 0
  end.

(** [strconv.ParseInt(s, 10, 64)] *)
Definition ParseInt (s : string) : Z * option NumError :=
  match bytes s with
  | [] => (0, Some ErrSyntax)
  | c :: rest =>
      let neg := c =? 45 in
      let digits := if (c =? 43) || (c =? 45) then rest else c :: rest in
      match ParseUint digits with
      | (_, Some ErrSyntax) => (0, Some ErrSyntax)
      | (un, _) =>
          let cutoff := 2 ^ 63 in
          if negb neg && (un >=? cutoff) then (cutoff - 1, Some ErrRange)
          else if neg && (un >? cutoff) then (- cutoff, Some ErrRange)
          else (if neg then wrap64 (- un) else un, None)
      end
  end.

End strconv.

(** ** sort *)

Module sort.

Fixpoint insert (x : string) (l : list string) : list string :=
  match l with
  | [] => [x]
  | y :: l' => if String.ltb y x then y :: insert x l' else x :: l
  end.

(** [sort.Strings]: increasing order of Go's [<] on strings, which
    compares byte by byte.  The library's algorithm (insertion sort on
    short slices, pattern-defeating quicksort above) is replaced by
    insertion sort; [Strings_unique] below shows that the result does not
    depend on the algorithm. *)
Definition Strings (l : list string) : list string :=
  fold_right insert [] l.

End sort.

(** ** time *)

Module time.

(** [time.Duration]: a signed 64-bit count of nanoseconds. *)
Definition Nanosecond : Z := 1.
Definition Second : Z := 1000000000.
Definition Minute : Z := 60 * Second.
Definition minDuration : Z := MinInt64.
Definition maxDuration : Z := MaxInt64.

(** [time.Time] without its location: [sec] is the [int64] count of
    seconds since January 1 of year 1, [nsec] the nanoseconds within the
    second, in [0, 999999999].  Monotonic clock readings are left out:
    [After], [Before], [Equal] and [Sub] look at them only when both
    operands carry one, and the value built by [time.Unix] never does. *)
Record Time := mkTime { sec : Z; nsec : Z }.

Definition unixToInternal : Z := 62135596800.

Definition wf (t : Time) : Prop := int64 (sec t) /\ 0 <= nsec t < Second.

(** [time.Unix(sec, nsec)] *)
Definition Unix (s ns : Z) : Time :=
  let '(s, ns) :=
    if (ns <? 0) || (ns >=? Second) then
      let n := Z.quot ns Second in
      let s := wrap64 (s + n) in
      let ns := ns - n * Second in
      if ns <? 0 then (wrap64 (s - 1), ns + Second) else (s, ns)
    else (s, ns) in
  mkTime (wrap64 (s + unixToInternal)) ns.

(** [t.addSec(d)]: the sum saturates instead of overflowing. *)
Definition addSec (t : Time) (d : Z) : Time :=
  let sum := wrap64 (sec t + d) in
  if Bool.eqb (sum >? sec t) (d >? 0) then mkTime sum (nsec t)
  else if d >? 0 then mkTime MaxInt64 (nsec t)
  else mkTime (- MaxInt64) (nsec t).

(** [t.Add(d)] *)
Definition Add (t : Time) (d : Z) : Time :=
  let dsec := Z.quot d Second in
  let ns := nsec t + Z.rem d Second in
  if ns >=? Second then addSec (mkTime (sec t) (ns - Second)) (dsec + 1)
  else if ns <? 0 then addSec (mkTime (sec t) (ns + Second)) (dsec - 1)
  else addSec (mkTime (sec t) ns) dsec.

(** [t.After(u)] *)
Definition After (t u : Time) : bool :=
  (sec t >? sec u) || ((sec t =? sec u) && (nsec t >? nsec u)).

(** [t.Before(u)] *)
Definition Before (t u : Time) : bool :=
  (sec t <? sec u) || ((sec t =? sec u) && (nsec t <? nsec u)).

(** [t.Equal(u)] *)
Definition Equal (t u : Time) : bool :=
  (sec t =? sec u) && (nsec t =? nsec u).

(** [t.Sub(u)]: the duration [t - u], or the largest (smallest) duration
    when the difference does not fit in one. *)
Definition Sub (t u : Time) : Z :=
  let d := wrap64 (wrap64 (wrap64 (sec t - sec u) * Second)
                   + (nsec t - nsec u)) in
  if Equal (Add u d) t then d
  else if Before t u then minDuration
  else maxDuration.

(** The instant [t] denotes, as an unbounded count of nanoseconds since
    the Unix epoch. *)
Definition instant (t : Time) : Z :=
  (sec t - unixToInternal) * Second + nsec t.

End time.

(** ** net/url *)

Module url.

(** [url.Values] is [map[string][]string]. *)
Abbreviation Values := (gmap string (list string)).

(** [v.Get(key)]: the first value associated with the key, or the empty
    string. *)
Definition Get (v : Values) (key : string) : string :=
  match v !! key with
  | Some (x :: _) => x
  | _ => ""
  end.

End url.

(** ** Package telegramauth *)

(** [DefaultAuthTTL] is the default maximum age for auth_date. *)
Definition DefaultAuthTTL : Z := 5 * time.Minute.
(** [DefaultClockSkew] is the default allowed future skew for auth_date. *)
Definition DefaultClockSkew : Z := 30 * time.Second.

(** The sentinel errors of the package, and the wrapping
    [fmt.Errorf("%w: %q", err, text)]. *)
Inductive error :=
  | ErrBotTokenRequired
  | ErrTelegramIDRequired
  | ErrTelegramIDInvalid
  | ErrTelegramHashRequired
  | ErrTelegramHashInvalid
  | ErrTelegramAuthDateRequired
  | ErrTelegramAuthDateInvalid
  | ErrTelegramAuthDateExpired
  | ErrTelegramAuthDateFuture
  | Errorf (wrapped : error) (quoted : string).

Global Instance error_eq_dec : EqDecision error.
Proof. solve_decision. Defined.

Module errors.

(** [errors.Is]: [err] or an error it wraps is [target]. *)
Fixpoint Is (err target : error) : bool :=
  bool_decide (err = target)
  || match err with
     | Errorf wrapped _ => Is wrapped target
     | _ => false
     end.

End errors.

(** [VerifyConfig] configures [VerifyWithConfig]; a [nil] [Now] is [None]. *)
Record VerifyConfig := mkVerifyConfig {
  AuthTTL : Z;
  ClockSkew : Z;
  Now : option (unit -> time.Time)
}.

(** [AuthData] contains validated Telegram user fields from callback data. *)
Record AuthData := mkAuthData {
  UserID : Z;
  Username : string;
  FirstName : string;
  LastName : string;
  PhotoURL : string;
  AuthDateUnix : Z
}.

(** [AuthData{}] and [VerifyConfig{}] *)
Definition AuthData_zero : AuthData := mkAuthData 0 "" "" "" "" 0.
Definition VerifyConfig_zero : VerifyConfig := mkVerifyConfig 0 0 None.

Abbreviation Query := (gmap string string).

(** [query[key]]: the empty string when the key is missing. *)
Definition index (query : Query) (key : string) : string :=
  default "" (query !! key).

Definition newline : string := String "010"%char "".

(** [fmt.Sprintf("%s=%s", key, value)] *)
Definition Sprintf_kv (key value : string) : string := key +:+ "=" +:+ value.

(** The [range] loop of [verifyHash] over the entries in the order [entries]
    in which the map yields them. *)
Definition dataCheckPairs (entries : list (string * string)) : list string :=
  fold_left
    (fun pairs kv =>
       if String.eqb (fst kv) "hash" then pairs
       else (pairs ++ [Sprintf_kv (fst kv) (snd kv)])%list)
    entries [].

(** [verifyHash], with the iteration order of [range query] as the
    parameter [entries]. *)
Definition verifyHash_range (entries : list (string * string))
    (botToken expectedHash : string) : option error :=
  match hex.DecodeString (strings.TrimSpace expectedHash) with
  | None => Some ErrTelegramHashInvalid
  | Some expectedHashBytes =>
      let dataCheckString :=
        strings.Join (sort.Strings (dataCheckPairs entries)) newline in
      let secret := sha256.Sum256 (bytes botToken) in
      let calculatedHashBytes := hmac.Sum secret (bytes dataCheckString) in
      if negb (hmac.Equal calculatedHashBytes expectedHashBytes)
      then Some ErrTelegramHashInvalid
      else None
  end.

(** Go leaves the order of [range] over a map unspecified;
    [verifyHash_order] shows that the result is the same for every
    order, so one enumeration stands for all. *)
Definition verifyHash (query : Query) (botToken expectedHash : string)
    : option error :=
  verifyHash_range (map_to_list query) botToken expectedHash.

Section Verify.

(** The reading [time.Now] gives when it is called. *)
Variable time_Now : unit -> time.Time.

(** [VerifyWithConfig] validates Telegram callback data with custom
    options. *)
Definition VerifyWithConfig (query : Query) (botToken : string)
    (config : VerifyConfig) : AuthData * option error :=
  let botToken := strings.TrimSpace botToken in
  if String.eqb botToken "" then (AuthData_zero, Some ErrBotTokenRequired)
  else
  let authTTL :=
    if AuthTTL config <=? 0 then DefaultAuthTTL else AuthTTL config in
  let clockSkew :=
    if ClockSkew config <=? 0 then DefaultClockSkew else ClockSkew config in
  let nowFn := match Now config with None => time_Now | Some f => f end in
  let hash := strings.TrimSpace (index query "hash") in
  if String.eqb hash "" then (AuthData_zero, Some ErrTelegramHashRequired)
  else
  match verifyHash query botToken hash with
  | Some err => (AuthData_zero, Some err)
  | None =>
  let idValue := strings.TrimSpace (index query "id") in
  if String.eqb idValue "" then (AuthData_zero, Some ErrTelegramIDRequired)
  else
  match strconv.ParseInt idValue with
  | (_, Some _) => (AuthData_zero, Some (Errorf ErrTelegramIDInvalid idValue))
  | (userID, None) =>
  if userID <=? 0
  then (AuthData_zero, Some (Errorf ErrTelegramIDInvalid idValue))
  else
  let authDateValue := strings.TrimSpace (index query "auth_date") in
  if String.eqb authDateValue ""
  then (AuthData_zero, Some ErrTelegramAuthDateRequired)
  else
  match strconv.ParseInt authDateValue with
  | (_, Some _) =>
      (AuthData_zero, Some (Errorf ErrTelegramAuthDateInvalid authDateValue))
  | (authDateUnix, None) =>
  let authDate := time.Unix authDateUnix 0 in
  let now := nowFn tt in
  if time.After authDate (time.Add now clockSkew)
  then (AuthData_zero, Some ErrTelegramAuthDateFuture)
  else
  if time.Sub now authDate >? authTTL
  then (AuthData_zero, Some ErrTelegramAuthDateExpired)
  else
  (mkAuthData userID
              (index query "username")
              (index query "first_name")
              (index query "last_name")
              (index query "photo_url")
              authDateUnix,
   None)
  end end end.

(** [Verify] validates Telegram callback data from a plain key/value
    map. *)
Definition Verify (query : Query) (botToken : string)
    : AuthData * option error :=
  VerifyWithConfig query botToken VerifyConfig_zero.

(** The loop of [VerifyURLValues] over the keys in the order [keys]. *)
Definition flatten_range (values : url.Values) (keys : list string) : Query :=
  fold_left (fun query key => <[key := url.Get values key]> query) keys ∅.

(** [VerifyURLValues] validates Telegram callback data from
    [url.Values]. *)
Definition VerifyURLValues (values : url.Values) (botToken : string)
    : AuthData * option error :=
  let query := flatten_range values (fst <$> map_to_list values) in
  Verify query botToken.

End Verify.

(** * Notions used to state the properties

    What follows is not part of the program: the reading of the
    specification's words (white space, base-10 numbers, the canonical check
    string, the order of the checks, the freshness window) against which the
    routine is compared, and the concrete inputs at which the theorems are
    exercised. *)

(** ** Bytes, white space and numbers *)

Definition is_byte (b : Z) : Prop := 0 <= b < 256.

(** The loop of [strings.skipWhile] started with the length of the string
    as its bound. *)
Definition trim (width : list Z -> nat) (s : list Z) : list Z :=
  strings.skipWhile width (length s) s.

(** The UTF-8 encodings of the white-space code points. *)
Definition space_encodings : list (list Z) :=
  List.map unicode.EncodeRune unicode.White_Space.

(** [Blank encs s]: [s] is a concatenation of members of [encs]. *)
Inductive Blank (encs : list (list Z)) : list Z -> Prop :=
  | Blank_nil : Blank encs []
  | Blank_cons w s : In w encs -> Blank encs s -> Blank encs (w ++ s).

(** A string that consists only of white space (possibly none). *)
Definition only_space (s : string) : Prop := Blank space_encodings (bytes s).

(** An ASCII byte that is not white space. *)
Definition plain (b : Z) : Prop := 0 <= b < 128 /\ strings.asciiSpace b = false.

Definition plain_ends (s : list Z) : Prop :=
  match s with [] => False | b :: _ => plain b end
  /\ match rev s with [] => False | b :: _ => plain b end.

Definition plainb (b : Z) : bool :=
  (0 <=? b) && (b <? 128) && negb (strings.asciiSpace b).

Definition hex_digits (x : Z) : list Z :=
  [hex.hextable (Z.shiftr x 4); hex.hextable (Z.land x 15)].

Definition is_digit (c : Z) : bool := (48 <=? c) && (c <=? 57).

(** The number that a sequence of decimal digits denotes, continuing from
    [acc]. *)
Definition digits_value (cs : list Z) (acc : Z) : Z :=
  fold_left (fun n c => n * 10 + (c - 48)) cs acc.

(** Base-10 reading of a string: an optional sign followed by one or more
    decimal digits, and nothing else. *)
Definition decimal (s : string) : option Z :=
  match bytes s with
  | [] => None
  | c :: rest =>
      let ds := if (c =? 43) || (c =? 45) then rest else c :: rest in
      match ds with
      | [] => None
      | _ =>
          if forallb is_digit ds
          then Some (if c =? 45 then - digits_value ds 0 else digits_value ds 0)
          else None
      end
  end.

(** A clock reading far from the ends of the [int64] range of seconds. *)
Definition sane (t : time.Time) : Prop :=
  time.wf t /\ - 2 ^ 62 <= time.sec t <= 2 ^ 62.

(** ** The canonical check string *)

Definition is_data_field (kv : string * string) : Prop := fst kv <> "hash".

Global Instance is_data_field_dec kv : Decision (is_data_field kv).
Proof. unfold is_data_field. apply _. Defined.

Definition format_field (kv : string * string) : string :=
  Sprintf_kv (fst kv) (snd kv).

(** Byte-wise lexicographic order on strings. *)
Fixpoint lex_le (a b : list Z) : Prop :=
  match a, b with
  | [], _ => True
  | _ :: _, [] => False
  | x :: a', y :: b' => x < y \/ (x = y /\ lex_le a' b')
  end.

Definition bytewise_le (s1 s2 : string) : Prop := lex_le (bytes s1) (bytes s2).

(** The fields that are signed: every field of the input except the
    signature field, each written [key=value]. *)
Definition check_fields (query : Query) : list string :=
  (fun kv => fst kv +:+ "=" +:+ snd kv) <$> map_to_list (delete "hash" query).

(** The canonical check string: the signed fields in sorted order, joined
    by single newlines. *)
Definition canonical_check_string (query : Query) : string :=
  strings.Join (sort.Strings (check_fields query)) newline.

(** HMAC-SHA256 of the canonical check string under the key derived from
    the secret. *)
Definition expected_mac (query : Query) (secret : string) : list Z :=
  hmac.Sum (sha256.Sum256 (bytes secret)) (bytes (canonical_check_string query)).

(** ** The checks of the routine *)

(** The effective policy: a duration that is zero or negative stands for
    the default, and a missing clock for [time.Now]. *)
Definition maxAge (config : VerifyConfig) : Z :=
  if AuthTTL config <=? 0 then DefaultAuthTTL else AuthTTL config.

Definition maxSkew (config : VerifyConfig) : Z :=
  if ClockSkew config <=? 0 then DefaultClockSkew else ClockSkew config.

Definition clock (time_Now : unit -> time.Time) (config : VerifyConfig)
    : time.Time :=
  match Now config with None => time_Now tt | Some f => f tt end.

(** The trimmed values that the routine reads. *)
Definition secret_of (botToken : string) : string := strings.TrimSpace botToken.
Definition field (query : Query) (key : string) : string :=
  strings.TrimSpace (index query key).

(** The checks of the routine in their order, each with the error its
    failure produces.  A check that depends on an earlier one (the range of
    a number that did not parse) is evaluated on the value the failed step
    leaves behind; it is never the first failure then. *)
Definition checks time_Now (query : Query) (botToken : string)
    (config : VerifyConfig) : list (bool * error) :=
  let id := strconv.ParseInt (field query "id") in
  let auth_date := strconv.ParseInt (field query "auth_date") in
  let authDate := time.Unix (fst auth_date) 0 in
  let now := clock time_Now config in
  [ (* secret non-blank *)
    (negb (String.eqb (secret_of botToken) ""), ErrBotTokenRequired);
    (* signature field present after trimming *)
    (negb (String.eqb (field query "hash") ""), ErrTelegramHashRequired);
    (* signature verified *)
    (bool_decide
       (verifyHash query (secret_of botToken) (field query "hash") = None),
     ErrTelegramHashInvalid);
    (* identifier present *)
    (negb (String.eqb (field query "id") ""), ErrTelegramIDRequired);
    (* identifier parsed and range-checked *)
    (bool_decide (snd id = None) && (0 <? fst id),
     Errorf ErrTelegramIDInvalid (field query "id"));
    (* timestamp present *)
    (negb (String.eqb (field query "auth_date") ""),
     ErrTelegramAuthDateRequired);
    (* timestamp parsed *)
    (bool_decide (snd auth_date = None),
     Errorf ErrTelegramAuthDateInvalid (field query "auth_date"));
    (* future check *)
    (negb (time.After authDate (time.Add now (maxSkew config))),
     ErrTelegramAuthDateFuture);
    (* expiry check *)
    (negb (time.Sub now authDate >? maxAge config),
     ErrTelegramAuthDateExpired) ].

(** The error of the first check that fails, [None] when all pass. *)
Fixpoint first_failure (cs : list (bool * error)) : option error :=
  match cs with
  | [] => None
  | (true, _) :: rest => first_failure rest
  | (false, err) :: _ => Some err
  end.

(** The secret is set, the signature field is present and the signature
    verifies. *)
Definition correctly_signed (query : Query) (botToken : string) : Prop :=
  secret_of botToken <> ""
  /\ field query "hash" <> ""
  /\ verifyHash query (secret_of botToken) (field query "hash") = None.

(** The identifier field holds a base-10 number that fits in 64 bits and is
    positive. *)
Definition valid_identifier (query : Query) : Prop :=
  exists v, decimal (field query "id") = Some v /\ int64 v /\ 0 < v.

(** Everything but the freshness of the timestamp [ts] is in order. *)
Definition otherwise_valid (query : Query) (botToken : string) (ts : Z) : Prop :=
  correctly_signed query botToken
  /\ field query "id" <> "" /\ valid_identifier query
  /\ field query "auth_date" <> ""
  /\ decimal (field query "auth_date") = Some ts /\ int64 ts.

(** The durations of the configuration are [int64] values and the clock
    gives a well-formed [time.Time]. *)
Definition wf_policy time_Now (config : VerifyConfig) : Prop :=
  int64 (AuthTTL config) /\ int64 (ClockSkew config)
  /\ time.wf (clock time_Now config).

(** The freshness window [now - maxAge, now + maxSkew], in nanoseconds. *)
Definition in_window time_Now (config : VerifyConfig) (ts : Z) : Prop :=
  time.instant (clock time_Now config) - maxAge config
  <= ts * time.Second
  <= time.instant (clock time_Now config) + maxSkew config.

(** The single-valued mapping of a multi-valued one: every key with its
    first value (the empty string for a key without values). *)
Definition first_values (values : url.Values) : Query :=
  (fun vs => default "" (head vs)) <$> values.

(** ** Concrete inputs *)

Module Example.

Definition token : string := "test-token".

(** 2027-01-15 08:00:00 UTC *)
Definition now : time.Time := time.Unix 1800000000 0.

Definition fields : Query :=
  list_to_map [("id", "42"); ("auth_date", "1800000000");
               ("username", "john_doe"); ("first_name", "John")].

Definition sign (query : Query) : string :=
  hex.EncodeToString (expected_mac query token).

Definition signed (query : Query) : Query :=
  <["hash" := sign query]> query.

Definition config : VerifyConfig :=
  mkVerifyConfig 0 0 (Some (fun _ => now)).

End Example.

Module OldTimestamp.

(** A policy whose maximum age is the largest duration, about 292 years,
    and a correctly signed timestamp of the year 1716, more than 292
    years before the clock reading. *)
Definition config : VerifyConfig :=
  mkVerifyConfig MaxInt64 0 (Some (fun _ => Example.now)).

Definition query : Query :=
  Example.signed (list_to_map [("id", "42"); ("auth_date", "-8000000000")]).

End OldTimestamp.

Module LastSecond.

(** The last second that [time.Time] represents, as the clock reading
    (it is [time.Unix(math.MaxInt64 - 62135596800, 500000000)]), the
    default policy, and a correctly signed timestamp ten seconds later. *)
Definition now : time.Time := time.mkTime MaxInt64 500000000.

Definition config : VerifyConfig := mkVerifyConfig 0 0 (Some (fun _ => now)).

Definition query : Query :=
  Example.signed
    (list_to_map [("id", "42"); ("auth_date", "9223371974719179017")]).

End LastSecond.

Module EmptyIdentifier.

(** A correctly signed input whose identifier field is present and
    empty. *)
Definition query : Query :=
  Example.signed (list_to_map [("id", ""); ("auth_date", "1800000000")]).

End EmptyIdentifier.

Module Witness.

Definition clock_now : unit -> time.Time := fun _ => Example.now.

(** The fields of the example with their signature. *)
Definition query : Query := Example.signed Example.fields.

Definition sorted : list string :=
  ["auth_date=1800000000"; "first_name=John"; "id=42"; "username=john_doe"].

(** A timestamp exactly [maxSkew] ahead of the clock. *)
Definition ahead : Query :=
  Example.signed (list_to_map [("id", "42"); ("auth_date", "1800000030")]).

Definition zero_id : Query :=
  Example.signed (list_to_map [("id", "0"); ("auth_date", "1800000000")]).

(** A signature that is not hexadecimal. *)
Definition not_hex : Query := <["hash" := "xyz"]> Example.fields.

(** Space, tab, and U+00A0 in UTF-8. *)
Definition blank : string :=
  String " " (String "009" (String "194" (String "160" ""))).

Definition values : url.Values :=
  list_to_map [("id", ["42"; "999"]); ("auth_date", ["1800000000"]);
               ("username", ["john_doe"]); ("first_name", ["John"]);
               ("hash", [Example.sign Example.fields])].

Definition padded : string :=
  blank +:+ Example.sign Example.fields +:+ newline.

End Witness.

(** ** The claims that need an amendment, as they are worded *)

(** The freshness window as the specification words it: for every input
    that is otherwise valid and every policy, the timestamp is accepted
    exactly when it lies in the closed window. *)
Definition window_claim : Prop :=
  forall time_Now (query : Query) botToken config ts,
    wf_policy time_Now config ->
    otherwise_valid query botToken ts ->
    snd (VerifyWithConfig time_Now query botToken config) = None
    <-> in_window time_Now config ts.

(** The identifier check as the specification words it: on every
    correctly signed input, an identifier field that does not hold a
    positive base-10 number of 64 bits yields the identifier-invalid
    error. *)
Definition identifier_claim : Prop :=
  forall time_Now (query : Query) botToken config,
    correctly_signed query botToken ->
    is_Some (query !! "id") ->
    ~ valid_identifier query ->
    exists err,
      snd (VerifyWithConfig time_Now query botToken config) = Some err
      /\ errors.Is err ErrTelegramIDInvalid = true.

(** The last clause of the record claim as the specification words it: a
    record is returned only when the timestamp fell within policy, that
    is, within the freshness window of the policy. *)
Definition record_claim : Prop :=
  forall time_Now (query : Query) botToken config r,
    wf_policy time_Now config ->
    VerifyWithConfig time_Now query botToken config = (r, None) ->
    in_window time_Now config (AuthDateUnix r).

(** ** The test helper and further notions *)

(** [testBotToken] of the package's tests. *)
Definition testBotToken : string := "test-token".

(** [signQuery] of the package's tests, with the iteration order of
    [range query] as the parameter [entries]; its loop is the loop of
    [verifyHash], line for line. *)
Definition signQuery_range (entries : list (string * string)) : string :=
  let dataCheckString :=
    strings.Join (sort.Strings (dataCheckPairs entries)) newline in
  let secret := sha256.Sum256 (bytes testBotToken) in
  hex.EncodeToString (hmac.Sum secret (bytes dataCheckString)).

Definition signQuery (query : Query) : string :=
  signQuery_range (map_to_list query).

(** The key is missing from the mapping, or its value consists of white
    space only. *)
Definition absent_or_blank (query : Query) (key : string) : Prop :=
  match query !! key with
  | None => True
  | Some v => only_space v
  end.

(** The field holds a base-10 number that fits in 64 bits. *)
Definition parses (query : Query) (key : string) : Prop :=
  exists v, decimal (field query key) = Some v /\ int64 v.

(** The errors the routine can return for a given input. *)
Definition possible_errors (query : Query) : list error :=
  [ ErrBotTokenRequired; ErrTelegramHashRequired; ErrTelegramHashInvalid;
    ErrTelegramIDRequired; Errorf ErrTelegramIDInvalid (field query "id");
    ErrTelegramAuthDateRequired;
    Errorf ErrTelegramAuthDateInvalid (field query "auth_date");
    ErrTelegramAuthDateFuture; ErrTelegramAuthDateExpired ].

(** A byte that starts a white-space rune is never a UTF-8 continuation
    byte. *)
Definition lead (b : Z) : Prop := ~ (128 <= b < 192).

Module Sample.

(** Correctly signed inputs that lack one required field, or hold a
    timestamp that is no number. *)
Definition no_id : Query :=
  Example.signed (list_to_map [("auth_date", "1800000000")]).

Definition no_auth_date : Query :=
  Example.signed (list_to_map [("id", "42")]).

Definition bad_auth_date : Query :=
  Example.signed (list_to_map [("id", "42"); ("auth_date", "yesterday")]).

Definition no_hash : Query :=
  list_to_map [("id", "42"); ("auth_date", "1800000000")].

(** The signature of the example in upper-case letters. *)
Definition upper_hash : string :=
  "F1FF648ACEFED8133AE820EFB5DAC9A03691ECDF644BBFCA099515271571230D".

(** The entries of the example in another order, with a stale signature
    among them. *)
Definition shuffled : list (string * string) :=
  rev (map_to_list (<["hash" := "stale"]> Example.fields)).

End Sample.

(** * Properties of the library models *)

Example sha256_abc :
  hex.EncodeToString (sha256.Sum256 (bytes "abc"))
  = "ba7816bf8f01cfea414140de5dae2223b00361a396177a9cb410ff61f20015ad".
Proof. vm_compute. reflexivity. Qed.

Example sha256_empty :
  hex.EncodeToString (sha256.Sum256 [])
  = "e3b0c44298fc1c149afbf4c8996fb92427ae41e4649b934ca495991b7852b855".
Proof. vm_compute. reflexivity. Qed.

Example sha256_two_blocks :
  hex.EncodeToString (sha256.Sum256
    (bytes "abcdbcdecdefdefgefghfghighijhijkijkljklmklmnlmnomnopnopq"))
  = "248d6a61d20638b8e5c026930c3e6039a33ce45964ff2167f6ecedd419db06c1".
Proof. vm_compute. reflexivity. Qed.

Example hmac_rfc4231_case2 :
  hex.EncodeToString (hmac.Sum (bytes "Jefe") (bytes "what do ya want for nothing?"))
  = "5bdcc146bf60754e6a042426089575c75a003f089d2739839dec58b964ec3843".
Proof. vm_compute. reflexivity. Qed.



(** ** Bytes and strings *)

Lemma byte_of_ascii_range c : is_byte (byte_of_ascii c).
Proof.
  unfold is_byte, byte_of_ascii.
  pose proof (N_ascii_bounded c). lia.
Qed.

Lemma ascii_of_byte_of_ascii c : ascii_of_byte (byte_of_ascii c) = c.
Proof.
  unfold ascii_of_byte, byte_of_ascii.
  rewrite N2Z.id. apply ascii_N_embedding.
Qed.

Lemma byte_of_ascii_of_byte b : is_byte b -> byte_of_ascii (ascii_of_byte b) = b.
Proof.
  unfold is_byte, ascii_of_byte, byte_of_ascii. intros Hb.
  rewrite N_ascii_embedding by lia. lia.
Qed.

Lemma bytes_range s : Forall is_byte (bytes s).
Proof.
  unfold bytes. apply Forall_forall. intros b Hb.
  apply list_elem_of_In, in_map_iff in Hb as (c & <- & _).
  apply byte_of_ascii_range.
Qed.

Lemma string_of_bytes_bytes s : string_of_bytes (bytes s) = s.
Proof.
  unfold string_of_bytes, bytes. rewrite List.map_map.
  rewrite (List.map_ext _ (fun c => c)) by apply ascii_of_byte_of_ascii.
  rewrite List.map_id. apply string_of_list_ascii_of_string.
Qed.

Lemma bytes_string_of_bytes b :
  Forall is_byte b -> bytes (string_of_bytes b) = b.
Proof.
  intros Hb. unfold string_of_bytes, bytes.
  rewrite list_ascii_of_string_of_list_ascii, List.map_map.
  induction Hb as [|x l Hx _ IH]; simpl; [reflexivity|].
  rewrite byte_of_ascii_of_byte by assumption. f_equal. exact IH.
Qed.

Lemma bytes_app s1 s2 : bytes (s1 +:+ s2) = (bytes s1 ++ bytes s2)%list.
Proof.
  unfold bytes. induction s1 as [|c s1 IH]; simpl; [reflexivity|].
  f_equal. exact IH.
Qed.

Lemma bytes_inj s1 s2 : bytes s1 = bytes s2 -> s1 = s2.
Proof.
  intros H. rewrite <- (string_of_bytes_bytes s1), <- (string_of_bytes_bytes s2).
  congruence.
Qed.

Lemma bytes_nil s : bytes s = [] <-> s = "".
Proof.
  split; [|intros ->; reflexivity].
  intros H. apply bytes_inj. exact H.
Qed.

Lemma string_of_bytes_nil b : string_of_bytes b = "" <-> b = [].
Proof.
  split; [|intros ->; reflexivity].
  destruct b; [reflexivity|discriminate].
Qed.

(** ** White space *)

Section SkipWhile.

Variable width : list Z -> nat.
Variable encs : list (list Z).

Hypothesis width_nil : width [] = O.
Hypothesis width_complete :
  forall w s, In w encs -> width (w ++ s)%list = length w.
Hypothesis encs_nonempty : forall w, In w encs -> w <> [].
Hypothesis width_sound :
  forall s n, width s = S n ->
    exists w r, s = (w ++ r)%list /\ In w encs /\ length w = S n.

Lemma Blank_app a b : Blank encs a -> Blank encs b -> Blank encs (a ++ b).
Proof.
  induction 1 as [|w s Hw Hs IH]; intros Hb; [exact Hb|].
  rewrite <- List.app_assoc. apply Blank_cons; auto.
Qed.

Lemma skipWhile_fuel f1 f2 s :
  (length s <= f1)%nat -> (length s <= f2)%nat ->
  strings.skipWhile width f1 s = strings.skipWhile width f2 s.
Proof.
  revert f2 s. induction f1 as [|f1 IH]; intros f2 s H1 H2.
  - destruct s; [|simpl in H1; lia].
    destruct f2; simpl; [reflexivity|]. rewrite width_nil. reflexivity.
  - destruct f2 as [|f2].
    + destruct s; [|simpl in H2; lia].
      simpl. rewrite width_nil. reflexivity.
    + simpl. destruct (width s) as [|n] eqn:Hw; [reflexivity|].
      destruct s as [|b s]; [rewrite width_nil in Hw; discriminate|].
      apply IH; rewrite List.length_skipn; simpl in *; lia.
Qed.

Lemma trim_stop s : width s = O -> trim width s = s.
Proof.
  unfold trim. intros H. destruct (length s); simpl; [reflexivity|].
  rewrite H. reflexivity.
Qed.

Lemma trim_step w s : In w encs -> trim width (w ++ s) = trim width s.
Proof.
  intros Hw. unfold trim.
  pose proof (encs_nonempty w Hw) as Hne.
  destruct w as [|b w]; [congruence|].
  simpl length. cbn [strings.skipWhile].
  rewrite (width_complete (b :: w) s Hw). simpl length.
  change ((b :: w) ++ s)%list with (b :: (w ++ s)%list).
  cbn [skipn].
  replace (skipn (length w) (w ++ s)%list) with s.
  - apply skipWhile_fuel; rewrite ?List.length_app; lia.
  - rewrite List.skipn_app, List.skipn_all, Nat.sub_diag. reflexivity.
Qed.

Lemma trim_blank ws s : Blank encs ws -> trim width (ws ++ s) = trim width s.
Proof.
  induction 1 as [|w ws Hw _ IH]; [reflexivity|].
  rewrite <- List.app_assoc, trim_step by assumption. exact IH.
Qed.

(** What [trim] removes is blank, and what it leaves does not start with
    white space. *)
Lemma trim_split s :
  exists ws, Blank encs ws /\ s = (ws ++ trim width s)%list /\ width (trim width s) = O.
Proof.
  remember (length s) as n eqn:Hn.
  revert s Hn. induction n as [n IH] using lt_wf_ind. intros s Hn.
  destruct (width s) as [|k] eqn:Hw.
  - exists []. rewrite trim_stop by assumption.
    split; [constructor|]. split; [reflexivity|assumption].
  - destruct (width_sound s k Hw) as (w & r & -> & Hin & Hlen).
    destruct (IH (length r)) with (s := r) as (ws & Hws & Hr & Hz);
      [rewrite List.length_app in Hn; lia|reflexivity|].
    exists (w ++ ws)%list. rewrite trim_step by assumption.
    split; [apply Blank_cons; assumption|].
    split; [|assumption].
    rewrite <- List.app_assoc. f_equal. exact Hr.
Qed.

Lemma trim_nil_iff s : trim width s = [] <-> Blank encs s.
Proof.
  split.
  - intros H. destruct (trim_split s) as (ws & Hws & Hs & _).
    rewrite H, List.app_nil_r in Hs. subst. assumption.
  - intros H. rewrite <- (List.app_nil_r s), trim_blank by assumption.
    reflexivity.
Qed.

End SkipWhile.

Lemma Blank_rev encs s :
  Blank encs s -> Blank (List.map (@rev Z) encs) (rev s).
Proof.
  induction 1 as [|w s Hw Hs IH]; [constructor|].
  rewrite List.rev_app_distr.
  apply Blank_app; [exact IH|].
  rewrite <- (List.app_nil_r (rev w)).
  apply Blank_cons; [|constructor].
  apply in_map. exact Hw.
Qed.

Lemma Blank_unrev encs s :
  Blank (List.map (@rev Z) encs) s -> Blank encs (rev s).
Proof.
  induction 1 as [|w s Hw Hs IH]; [constructor|].
  rewrite List.rev_app_distr.
  apply Blank_app; [exact IH|].
  apply in_map_iff in Hw as (w' & <- & Hw').
  rewrite List.rev_involutive, <- (List.app_nil_r w').
  apply Blank_cons; [assumption|constructor].
Qed.

Ltac bool_prop :=
  repeat match goal with
  | H : _ && _ = true |- _ => apply andb_prop in H; destruct H
  | H : _ || _ = true |- _ => apply orb_prop in H; destruct H
  | H : (_ =? _) = true |- _ => apply Z.eqb_eq in H
  | H : (_ <=? _) = true |- _ => apply Z.leb_le in H
  end.

Ltac in_concrete :=
  solve [vm_compute; repeat first [left; reflexivity | right]].

Lemma asciiSpace_In b : strings.asciiSpace b = true -> In [b] space_encodings.
Proof.
  unfold strings.asciiSpace. intros H. bool_prop.
  - assert (b = 9 \/ b = 10 \/ b = 11 \/ b = 12 \/ b = 13) as Hb by lia.
    repeat destruct Hb as [->|Hb]; try subst b; in_concrete.
  - subst b. in_concrete.
Qed.

Lemma space2_In b1 b2 : strings.space2 b1 b2 = true -> In [b1; b2] space_encodings.
Proof.
  unfold strings.space2. intros H. bool_prop; subst; in_concrete.
Qed.

Lemma space3_In b1 b2 b3 :
  strings.space3 b1 b2 b3 = true -> In [b1; b2; b3] space_encodings.
Proof.
  unfold strings.space3. intros H. bool_prop; subst; try in_concrete.
  assert (b3 = 128 \/ b3 = 129 \/ b3 = 130 \/ b3 = 131 \/ b3 = 132 \/ b3 = 133
          \/ b3 = 134 \/ b3 = 135 \/ b3 = 136 \/ b3 = 137 \/ b3 = 138)
    as Hb by lia.
  repeat destruct Hb as [->|Hb]; try subst b3; in_concrete.
Qed.

Lemma space_encodings_nonempty w : In w space_encodings -> w <> [].
Proof.
  intros Hw. vm_compute in Hw.
  repeat destruct Hw as [<-|Hw]; try contradiction; discriminate.
Qed.

Lemma rev_encodings_nonempty w :
  In w (List.map (@rev Z) space_encodings) -> w <> [].
Proof.
  intros Hw. vm_compute in Hw.
  repeat destruct Hw as [<-|Hw]; try contradiction; discriminate.
Qed.

Lemma spaceWidth_complete w s :
  In w space_encodings -> strings.spaceWidth (w ++ s) = length w.
Proof.
  intros Hw. vm_compute in Hw.
  repeat destruct Hw as [<-|Hw]; try contradiction;
    destruct s as [|b2 [|b3 s]]; reflexivity.
Qed.

Lemma lastSpaceWidth_complete w s :
  In w (List.map (@rev Z) space_encodings) ->
  strings.lastSpaceWidth (w ++ s) = length w.
Proof.
  intros Hw. vm_compute in Hw.
  repeat destruct Hw as [<-|Hw]; try contradiction;
    destruct s as [|b2 [|b3 s]]; reflexivity.
Qed.

Ltac space_witness w lem :=
  exists w; eexists; split; [reflexivity|];
  split; [apply lem; assumption|simpl; congruence].

Lemma spaceWidth_sound s n :
  strings.spaceWidth s = S n ->
  exists w r, s = (w ++ r)%list /\ In w space_encodings /\ length w = S n.
Proof.
  unfold strings.spaceWidth. intros H.
  destruct s as [|b1 [|b2 [|b3 s]]]; [discriminate|..].
  - destruct (strings.asciiSpace b1) eqn:E1; [|discriminate].
    space_witness [b1] asciiSpace_In.
  - destruct (strings.asciiSpace b1) eqn:E1; [space_witness [b1] asciiSpace_In|].
    destruct (strings.space2 b1 b2) eqn:E2; [|discriminate].
    space_witness [b1; b2] space2_In.
  - destruct (strings.asciiSpace b1) eqn:E1; [space_witness [b1] asciiSpace_In|].
    destruct (strings.space2 b1 b2) eqn:E2; [space_witness [b1; b2] space2_In|].
    destruct (strings.space3 b1 b2 b3) eqn:E3; [|discriminate].
    space_witness [b1; b2; b3] space3_In.
Qed.

Lemma asciiSpace_rev_In b :
  strings.asciiSpace b = true -> In [b] (List.map (@rev Z) space_encodings).
Proof. intros H. apply (in_map (@rev Z) _ [b]), asciiSpace_In, H. Qed.

Lemma space2_rev_In b1 b2 :
  strings.space2 b1 b2 = true ->
  In [b2; b1] (List.map (@rev Z) space_encodings).
Proof. intros H. apply (in_map (@rev Z) _ [b1; b2]), space2_In, H. Qed.

Lemma space3_rev_In b1 b2 b3 :
  strings.space3 b1 b2 b3 = true ->
  In [b3; b2; b1] (List.map (@rev Z) space_encodings).
Proof. intros H. apply (in_map (@rev Z) _ [b1; b2; b3]), space3_In, H. Qed.

Lemma lastSpaceWidth_sound s n :
  strings.lastSpaceWidth s = S n ->
  exists w r, s = (w ++ r)%list
              /\ In w (List.map (@rev Z) space_encodings) /\ length w = S n.
Proof.
  unfold strings.lastSpaceWidth. intros H.
  destruct s as [|b3 [|b2 [|b1 s]]]; [discriminate|..].
  - destruct (strings.asciiSpace b3) eqn:E1; [|discriminate].
    space_witness [b3] asciiSpace_rev_In.
  - destruct (strings.asciiSpace b3) eqn:E1;
      [space_witness [b3] asciiSpace_rev_In|].
    destruct (strings.space2 b2 b3) eqn:E2; [|discriminate].
    space_witness [b3; b2] space2_rev_In.
  - destruct (strings.asciiSpace b3) eqn:E1;
      [space_witness [b3] asciiSpace_rev_In|].
    destruct (strings.space2 b2 b3) eqn:E2;
      [space_witness [b3; b2] space2_rev_In|].
    destruct (strings.space3 b1 b2 b3) eqn:E3; [|discriminate].
    space_witness [b3; b2; b1] space3_rev_In.
Qed.

Lemma spaceWidth_plain b s : plain b -> strings.spaceWidth (b :: s) = O.
Proof.
  intros [Hb Hs]. unfold strings.spaceWidth. rewrite Hs.
  assert (forall x, strings.space2 b x = false) as H2.
  { intros x. unfold strings.space2.
    destruct (Z.eqb_spec b 194); [lia|reflexivity]. }
  assert (forall x y, strings.space3 b x y = false) as H3.
  { intros x y. unfold strings.space3.
    destruct (Z.eqb_spec b 225); [lia|].
    destruct (Z.eqb_spec b 226); [lia|].
    destruct (Z.eqb_spec b 227); [lia|reflexivity]. }
  destruct s as [|b2 [|b3 s]]; rewrite ?H2, ?H3; reflexivity.
Qed.

Lemma lastSpaceWidth_plain b s : plain b -> strings.lastSpaceWidth (b :: s) = O.
Proof.
  intros [Hb Hs]. unfold strings.lastSpaceWidth. rewrite Hs.
  assert (forall x, strings.space2 x b = false) as H2.
  { intros x. unfold strings.space2.
    destruct (Z.eqb_spec b 133); [lia|].
    destruct (Z.eqb_spec b 160); [lia|].
    rewrite Bool.andb_false_r. reflexivity. }
  assert (forall x y, strings.space3 x y b = false) as H3.
  { intros x y. unfold strings.space3.
    destruct (Z.eqb_spec b 128); [lia|].
    destruct (Z.eqb_spec b 159); [lia|].
    destruct (Z.eqb_spec b 168); [lia|].
    destruct (Z.eqb_spec b 169); [lia|].
    destruct (Z.eqb_spec b 175); [lia|].
    destruct (Z.leb_spec 128 b); [lia|].
    rewrite !Bool.andb_false_r. reflexivity. }
  destruct s as [|b2 [|b3 s]]; rewrite ?H2, ?H3; reflexivity.
Qed.

(** ** strings.TrimSpace *)

Lemma TrimLeft_blank ws s :
  Blank space_encodings ws -> strings.TrimLeft (ws ++ s) = strings.TrimLeft s.
Proof.
  apply (trim_blank strings.spaceWidth space_encodings);
    [reflexivity|apply spaceWidth_complete|apply space_encodings_nonempty].
Qed.

Lemma TrimRight_trim s :
  strings.TrimRight s = rev (trim strings.lastSpaceWidth (rev s)).
Proof. unfold strings.TrimRight, trim. rewrite List.length_rev. reflexivity. Qed.

Lemma TrimRight_blank s ws :
  Blank space_encodings ws -> strings.TrimRight (s ++ ws) = strings.TrimRight s.
Proof.
  intros Hws. rewrite !TrimRight_trim. f_equal.
  rewrite List.rev_app_distr.
  apply (trim_blank strings.lastSpaceWidth (List.map (@rev Z) space_encodings));
    [reflexivity|apply lastSpaceWidth_complete|apply rev_encodings_nonempty|].
  apply Blank_rev. exact Hws.
Qed.

Lemma TrimLeft_stop s : strings.spaceWidth s = O -> strings.TrimLeft s = s.
Proof. apply (trim_stop strings.spaceWidth). Qed.

Lemma TrimRight_stop s :
  strings.lastSpaceWidth (rev s) = O -> strings.TrimRight s = s.
Proof.
  intros H. rewrite TrimRight_trim.
  rewrite (trim_stop strings.lastSpaceWidth _ H). apply List.rev_involutive.
Qed.

Lemma TrimLeft_split s :
  exists ws, Blank space_encodings ws
             /\ s = (ws ++ strings.TrimLeft s)%list
             /\ strings.spaceWidth (strings.TrimLeft s) = O.
Proof.
  apply (trim_split strings.spaceWidth space_encodings);
    [reflexivity|apply spaceWidth_complete|apply space_encodings_nonempty
    |apply spaceWidth_sound].
Qed.

Lemma TrimRight_split s :
  exists ws, Blank space_encodings ws
             /\ s = (strings.TrimRight s ++ ws)%list.
Proof.
  destruct (trim_split strings.lastSpaceWidth
              (List.map (@rev Z) space_encodings) eq_refl
              lastSpaceWidth_complete rev_encodings_nonempty
              lastSpaceWidth_sound (rev s)) as (ws & Hws & Hs & _).
  exists (rev ws). split; [apply Blank_unrev; exact Hws|].
  rewrite TrimRight_trim, <- List.rev_app_distr, <- Hs.
  symmetry. apply List.rev_involutive.
Qed.

(** [TrimSpace] gives the empty string exactly on the strings that consist
    of white space only. *)
Lemma TrimSpace_empty_iff s : strings.TrimSpace s = "" <-> only_space s.
Proof.
  unfold strings.TrimSpace, only_space. rewrite string_of_bytes_nil. split.
  - intros H.
    destruct (TrimLeft_split (bytes s)) as (ws & Hws & Hs & Hw).
    destruct (TrimRight_split (strings.TrimLeft (bytes s))) as (ws' & Hws' & Hs').
    rewrite H in Hs'. simpl in Hs'.
    rewrite Hs. apply Blank_app; [exact Hws|]. rewrite Hs'. exact Hws'.
  - intros H.
    rewrite <- (List.app_nil_r (bytes s)), TrimLeft_blank by exact H.
    reflexivity.
Qed.

Lemma trim_bytes_padded ws1 c ws2 :
  Blank space_encodings ws1 -> Blank space_encodings ws2 -> plain_ends c ->
  strings.TrimRight (strings.TrimLeft (ws1 ++ c ++ ws2)) = c.
Proof.
  intros H1 H2 [Hhd Hlast].
  rewrite TrimLeft_blank by exact H1.
  rewrite TrimLeft_stop.
  - rewrite TrimRight_blank by exact H2. apply TrimRight_stop.
    destruct (rev c) as [|b r]; [contradiction|].
    apply lastSpaceWidth_plain. exact Hlast.
  - destruct c as [|b c]; [contradiction|].
    apply spaceWidth_plain. exact Hhd.
Qed.

(** White space around a string that starts and ends with an ASCII character
    other than white space is removed, and nothing else. *)
Lemma TrimSpace_padded ws1 core ws2 :
  only_space ws1 -> only_space ws2 -> plain_ends (bytes core) ->
  strings.TrimSpace (ws1 +:+ core +:+ ws2) = core.
Proof.
  intros H1 H2 Hc. unfold strings.TrimSpace.
  rewrite !bytes_app, trim_bytes_padded by assumption.
  apply string_of_bytes_bytes.
Qed.

Lemma TrimSpace_plain core :
  plain_ends (bytes core) -> strings.TrimSpace core = core.
Proof.
  intros Hc. unfold strings.TrimSpace.
  pose proof (trim_bytes_padded [] (bytes core) []
                (Blank_nil _) (Blank_nil _) Hc) as H.
  simpl in H. rewrite List.app_nil_r in H. rewrite H.
  apply string_of_bytes_bytes.
Qed.

Lemma Forall_plain_ends l : Forall plain l -> l <> [] -> plain_ends l.
Proof.
  intros Hl Hne. split.
  - destruct l as [|b l]; [congruence|]. inversion Hl; assumption.
  - assert (Forall plain (rev l)) as Hr by (apply Forall_rev; exact Hl).
    destruct (rev l) as [|b r] eqn:E.
    + apply (f_equal (@rev Z)) in E. rewrite List.rev_involutive in E.
      simpl in E. congruence.
    + inversion Hr; assumption.
Qed.

(** ** encoding/hex *)

Lemma byte_forall (P : Z -> bool) :
  forallb P (List.map Z.of_nat (seq 0 256)) = true ->
  forall x, is_byte x -> P x = true.
Proof.
  intros H x Hx. rewrite forallb_forall in H. apply H.
  apply in_map_iff. exists (Z.to_nat x). unfold is_byte in Hx.
  split; [lia|]. apply in_seq. lia.
Qed.

Lemma plainb_plain b : plainb b = true -> plain b.
Proof.
  unfold plainb, plain. intros H.
  apply andb_prop in H as [H H3]. apply andb_prop in H as [H1 H2].
  apply Z.leb_le in H1. apply Z.ltb_lt in H2.
  apply Bool.negb_true_iff in H3. auto.
Qed.

Lemma hex_digits_decode x :
  is_byte x ->
  match hex_digits x with
  | [p; q] =>
      match hex.fromHexChar p, hex.fromHexChar q with
      | Some a, Some b => Z.lor (Z.shiftl a 4) b = x
      | _, _ => False
      end
  | _ => False
  end.
Proof.
  revert x.
  pose (P := fun x =>
    match hex.fromHexChar (hex.hextable (Z.shiftr x 4)),
          hex.fromHexChar (hex.hextable (Z.land x 15)) with
    | Some a, Some b => Z.lor (Z.shiftl a 4) b =? x
    | _, _ => false
    end).
  assert (forall x, is_byte x -> P x = true) as HP
    by (apply byte_forall; vm_compute; reflexivity).
  intros x Hx. specialize (HP x Hx). unfold P in HP. unfold hex_digits.
  destruct (hex.fromHexChar (hex.hextable (Z.shiftr x 4))); [|discriminate].
  destruct (hex.fromHexChar (hex.hextable (Z.land x 15))); [|discriminate].
  apply Z.eqb_eq. exact HP.
Qed.

Lemma hex_digits_plain x :
  is_byte x -> Forall (fun d => plain d /\ is_byte d) (hex_digits x).
Proof.
  revert x.
  pose (P := fun x =>
    forallb (fun d => plainb d && (0 <=? d) && (d <? 256)) (hex_digits x)).
  assert (forall x, is_byte x -> P x = true) as HP
    by (apply byte_forall; vm_compute; reflexivity).
  intros x Hx. specialize (HP x Hx). unfold P in HP.
  rewrite forallb_forall in HP. apply Forall_forall. intros d Hd.
  apply list_elem_of_In in Hd. specialize (HP d Hd).
  apply andb_prop in HP as [HP H3]. apply andb_prop in HP as [H1 H2].
  split; [apply plainb_plain; exact H1|].
  unfold is_byte. apply Z.leb_le in H2. apply Z.ltb_lt in H3. lia.
Qed.

Lemma Decode_hex_digits b :
  Forall is_byte b -> hex.Decode (flat_map hex_digits b) = Some b.
Proof.
  induction 1 as [|x b Hx _ IH]; [reflexivity|].
  pose proof (hex_digits_decode x Hx) as Hd.
  change (flat_map hex_digits (x :: b))
    with (hex_digits x ++ flat_map hex_digits b)%list.
  destruct (hex_digits x) as [|p [|q [|? ?]]]; try contradiction.
  simpl.
  destruct (hex.fromHexChar p); [|contradiction].
  destruct (hex.fromHexChar q); [|contradiction].
  rewrite IH, Hd. reflexivity.
Qed.

Lemma hex_digits_all b :
  Forall is_byte b ->
  Forall (fun d => plain d /\ is_byte d) (flat_map hex_digits b).
Proof.
  induction 1 as [|x b Hx _ IH]; [constructor|].
  change (flat_map hex_digits (x :: b))
    with (hex_digits x ++ flat_map hex_digits b)%list.
  apply Forall_app. split; [apply hex_digits_plain; exact Hx|exact IH].
Qed.

Lemma bytes_EncodeToString b :
  Forall is_byte b -> bytes (hex.EncodeToString b) = flat_map hex_digits b.
Proof.
  intros Hb. unfold hex.EncodeToString. apply bytes_string_of_bytes.
  eapply Forall_impl; [apply hex_digits_all; exact Hb|].
  intros d [_ Hd]. exact Hd.
Qed.

(** Decoding inverts encoding. *)
Lemma DecodeString_EncodeToString b :
  Forall is_byte b -> hex.DecodeString (hex.EncodeToString b) = Some b.
Proof.
  intros Hb. unfold hex.DecodeString.
  rewrite bytes_EncodeToString by exact Hb. apply Decode_hex_digits, Hb.
Qed.

Lemma EncodeToString_plain_ends b :
  Forall is_byte b -> b <> [] -> plain_ends (bytes (hex.EncodeToString b)).
Proof.
  intros Hb Hne. rewrite bytes_EncodeToString by exact Hb.
  apply Forall_plain_ends.
  - eapply Forall_impl; [apply hex_digits_all; exact Hb|].
    intros d [Hd _]. exact Hd.
  - destruct b as [|x b]; [congruence|]. discriminate.
Qed.

Lemma hmac_Equal_eq a b : hmac.Equal a b = true <-> a = b.
Proof.
  revert b. induction a as [|x a IH]; intros [|y b]; simpl;
    try (split; [discriminate|congruence]); [tauto|].
  rewrite Bool.andb_true_iff, IH, Z.eqb_eq. split.
  - intros [-> ->]. reflexivity.
  - intros [= -> ->]. auto.
Qed.

(** ** crypto/sha256 *)

Lemma be_bytes_range n x : Forall is_byte (sha256.be_bytes n x).
Proof.
  induction n as [|n IH]; simpl; constructor; [|exact IH].
  unfold is_byte. change 255 with (Z.ones 8).
  rewrite Z.land_ones by lia. apply Z.mod_pos_bound. lia.
Qed.

Lemma be_bytes_length n x : length (sha256.be_bytes n x) = n.
Proof. induction n as [|n IH]; simpl; congruence. Qed.

Lemma Sum256_range msg : Forall is_byte (sha256.Sum256 msg).
Proof.
  unfold sha256.Sum256. generalize (fold_left sha256.compress
    (sha256.chunks (length (sha256.pad msg)) sha256.BlockSize (sha256.pad msg))
    sha256.H0).
  intros h. induction h as [|x h IH]; [constructor|].
  change (flat_map (sha256.be_bytes 4) (x :: h))
    with (sha256.be_bytes 4 x ++ flat_map (sha256.be_bytes 4) h)%list.
  apply Forall_app. split; [apply be_bytes_range|exact IH].
Qed.

Lemma round_length s kw : length s = 8%nat -> length (sha256.round s kw) = 8%nat.
Proof.
  intros H. do 9 (destruct s as [|? s]; try discriminate). reflexivity.
Qed.

Lemma compress_length h block :
  length h = 8%nat -> length (sha256.compress h block) = 8%nat.
Proof.
  intros H. unfold sha256.compress.
  rewrite List.length_map, List.length_combine.
  assert (forall l s, length s = 8%nat ->
            length (fold_left sha256.round l s) = 8%nat) as Hf.
  { induction l as [|kw l IH]; intros s Hs; [exact Hs|].
    simpl. apply IH, round_length, Hs. }
  rewrite Hf by exact H. lia.
Qed.

Lemma Sum256_length msg : length (sha256.Sum256 msg) = 32%nat.
Proof.
  unfold sha256.Sum256.
  assert (forall l h, length h = 8%nat ->
            length (fold_left sha256.compress l h) = 8%nat) as Hf.
  { induction l as [|b l IH]; intros h Hh; [exact Hh|].
    simpl. apply IH, compress_length, Hh. }
  specialize (Hf (sha256.chunks (length (sha256.pad msg)) sha256.BlockSize
                    (sha256.pad msg)) sha256.H0 eq_refl).
  revert Hf. generalize (fold_left sha256.compress
    (sha256.chunks (length (sha256.pad msg)) sha256.BlockSize (sha256.pad msg))
    sha256.H0).
  intros h Hh. do 9 (destruct h as [|? h]; try discriminate). reflexivity.
Qed.

Lemma hmac_Sum_range key msg : Forall is_byte (hmac.Sum key msg).
Proof. apply Sum256_range. Qed.

Lemma hmac_Sum_nonempty key msg : hmac.Sum key msg <> [].
Proof.
  intros H. pose proof (Sum256_length
    (hmac.xor_pad 92 (hmac.block_key key)
     ++ sha256.Sum256 (hmac.xor_pad 54 (hmac.block_key key) ++ msg))) as Hl.
  unfold hmac.Sum in H. simpl in H. rewrite H in Hl. discriminate.
Qed.

(** ** sort.Strings *)

Lemma ltb_false_le x y : String.ltb y x = false -> String.le x y.
Proof.
  unfold String.ltb, String.le, String.leb. intros H.
  rewrite String.compare_antisym.
  destruct (String.compare y x); simpl; [exact I|discriminate|exact I].
Qed.

Lemma ltb_true_le x y : String.ltb y x = true -> String.le y x.
Proof.
  unfold String.ltb, String.le, String.leb.
  destruct (String.compare y x); simpl; [discriminate|intros _; exact I|discriminate].
Qed.

Lemma insert_Permutation x l : sort.insert x l ≡ₚ x :: l.
Proof.
  induction l as [|y l IH]; simpl; [reflexivity|].
  destruct (String.ltb y x); [|reflexivity].
  rewrite IH. apply Permutation_swap.
Qed.

Lemma insert_sorted x l :
  StronglySorted String.le l -> StronglySorted String.le (sort.insert x l).
Proof.
  induction 1 as [|y l Hl IH Hy]; simpl; [repeat constructor|].
  destruct (String.ltb y x) eqn:E.
  - constructor; [exact IH|].
    rewrite insert_Permutation. constructor; [|exact Hy].
    apply ltb_true_le, E.
  - apply ltb_false_le in E.
    constructor; [constructor; assumption|].
    constructor; [exact E|].
    eapply Forall_impl; [exact Hy|].
    intros z Hz. etrans; eassumption.
Qed.

Lemma Strings_Permutation l : sort.Strings l ≡ₚ l.
Proof.
  induction l as [|x l IH]; simpl; [reflexivity|].
  rewrite insert_Permutation, IH. reflexivity.
Qed.

Lemma Strings_sorted l : StronglySorted String.le (sort.Strings l).
Proof.
  induction l as [|x l IH]; simpl; [constructor|].
  apply insert_sorted, IH.
Qed.

(** The sorted arrangement of a list of strings is unique, so
    [sort.Strings] returns it whatever algorithm it runs. *)
Lemma Strings_unique l sorted :
  sorted ≡ₚ l -> StronglySorted String.le sorted -> sort.Strings l = sorted.
Proof.
  intros Hp Hs. apply (StronglySorted_unique String.le).
  - apply Strings_sorted.
  - exact Hs.
  - rewrite Strings_Permutation, Hp. reflexivity.
Qed.

(** ** The canonical check string *)

Lemma dataCheckPairs_filter entries :
  dataCheckPairs entries = format_field <$> filter is_data_field entries.
Proof.
  unfold dataCheckPairs.
  enough (forall acc,
    fold_left (fun pairs kv =>
       if String.eqb (fst kv) "hash" then pairs
       else (pairs ++ [Sprintf_kv (fst kv) (snd kv)])%list) entries acc
    = (acc ++ (format_field <$> filter is_data_field entries))%list) as H
    by apply (H []).
  induction entries as [|kv entries IH]; intros acc; simpl.
  - rewrite List.app_nil_r. reflexivity.
  - rewrite IH. rewrite filter_cons.
    destruct (String.eqb_spec (fst kv) "hash") as [E|E].
    + rewrite decide_False by (unfold is_data_field; auto). reflexivity.
    + rewrite decide_True by exact E.
      rewrite fmap_cons, <- List.app_assoc. reflexivity.
Qed.

Lemma filter_all {A} (P : A -> Prop) `{!forall x, Decision (P x)} (l : list A) :
  Forall P l -> filter P l = l.
Proof.
  induction 1 as [|x l Hx _ IH]; [reflexivity|].
  rewrite filter_cons_True by exact Hx. f_equal. exact IH.
Qed.

Lemma filter_data_fields (query : Query) :
  filter is_data_field (map_to_list query) ≡ₚ map_to_list (delete "hash" query).
Proof.
  assert (forall m : Query, m !! "hash" = None ->
            filter is_data_field (map_to_list m) = map_to_list m) as Hid.
  { intros m Hm. apply filter_all, Forall_forall. intros [k v] Hkv.
    apply elem_of_map_to_list in Hkv. unfold is_data_field. simpl.
    intros ->. congruence. }
  destruct (query !! "hash") as [x|] eqn:E.
  - rewrite <- (map_to_list_delete query "hash" x E).
    rewrite filter_cons, decide_False by (unfold is_data_field; auto).
    rewrite Hid by apply lookup_delete_eq. reflexivity.
  - rewrite delete_id by exact E. rewrite Hid by exact E. reflexivity.
Qed.

(** ** Machine arithmetic and package time *)

Ltac Zify.zify_post_hook ::= Z.to_euclidean_division_equations.

Lemma wrap64_range x : int64 (wrap64 x).
Proof. unfold int64, wrap64, MinInt64, MaxInt64. lia. Qed.

Lemma wrap64_id x : int64 x -> wrap64 x = x.
Proof. unfold int64, wrap64, MinInt64, MaxInt64. lia. Qed.

Lemma wrap64_congr x : exists k, wrap64 x = x + k * 2 ^ 64.
Proof.
  exists (- ((x + 2 ^ 63) / 2 ^ 64)). unfold wrap64. lia.
Qed.

Lemma addSec_exact s n d :
  int64 s -> int64 (s + d) ->
  time.addSec (time.mkTime s n) d = time.mkTime (s + d) n.
Proof.
  intros Hs Hsd. unfold time.addSec. simpl.
  rewrite (wrap64_id (s + d)) by exact Hsd.
  replace (Bool.eqb (s + d >? s) (d >? 0)) with true; [reflexivity|].
  destruct (Z.gtb_spec (s + d) s), (Z.gtb_spec d 0); simpl; try reflexivity; lia.
Qed.

Lemma addSec_saturates s n d :
  int64 s -> int64 d -> ~ int64 (s + d) ->
  Z.abs (time.sec (time.addSec (time.mkTime s n) d)) = MaxInt64.
Proof.
  intros Hs Hd Hsd. unfold time.addSec. simpl.
  destruct (wrap64_congr (s + d)) as [k Hk].
  pose proof (wrap64_range (s + d)) as Hr.
  unfold int64, MinInt64, MaxInt64 in *.
  destruct (Z.gtb_spec (wrap64 (s + d)) s), (Z.gtb_spec d 0); simpl; lia.
Qed.

Lemma addSec_nsec t d : time.nsec (time.addSec t d) = time.nsec t.
Proof.
  unfold time.addSec.
  destruct (Bool.eqb _ _); [reflexivity|]. destruct (d >? 0); reflexivity.
Qed.

(** [Add] is exact unless the seconds overflow, in which case they
    saturate. *)
Lemma Add_cases t d :
  time.wf t -> int64 d ->
  exists s' n',
    0 <= n' < time.Second
    /\ s' * time.Second + n' = time.sec t * time.Second + time.nsec t + d
    /\ time.nsec (time.Add t d) = n'
    /\ (int64 s' -> time.sec (time.Add t d) = s')
    /\ (~ int64 s' -> Z.abs (time.sec (time.Add t d)) = MaxInt64).
Proof.
  intros [Hs Hn] Hd. unfold time.Add.
  assert (int64 (Z.quot d time.Second + 1) /\ int64 (Z.quot d time.Second - 1)
          /\ int64 (Z.quot d time.Second)) as (Hq1 & Hq2 & Hq3)
    by (unfold int64, MinInt64, MaxInt64, time.Second in *; lia).
  destruct (Z.geb_spec (time.nsec t + Z.rem d time.Second) time.Second) as [G|G];
    [|destruct (Z.ltb_spec (time.nsec t + Z.rem d time.Second) 0) as [L|L]];
    rewrite addSec_nsec; simpl;
    [exists (time.sec t + (Z.quot d time.Second + 1)),
            (time.nsec t + Z.rem d time.Second - time.Second)
    |exists (time.sec t + (Z.quot d time.Second - 1)),
            (time.nsec t + Z.rem d time.Second + time.Second)
    |exists (time.sec t + Z.quot d time.Second),
            (time.nsec t + Z.rem d time.Second)];
    (split; [unfold time.Second in *; lia|]);
    (split; [unfold time.Second in *; lia|]);
    (split; [reflexivity|]);
    (split; [intros Hi; rewrite addSec_exact by assumption; reflexivity
            |intros Hi; apply addSec_saturates; assumption]).
Qed.

Lemma Unix_0 ts :
  time.Unix ts 0 = time.mkTime (wrap64 (ts + time.unixToInternal)) 0.
Proof. reflexivity. Qed.

Lemma Add_sane t d :
  sane t -> int64 d ->
  0 <= time.nsec (time.Add t d) < time.Second
  /\ time.sec (time.Add t d) * time.Second + time.nsec (time.Add t d)
     = time.sec t * time.Second + time.nsec t + d.
Proof.
  intros [[Hs Hn] Hb] Hd. unfold time.Add.
  destruct (Z.geb_spec (time.nsec t + Z.rem d time.Second) time.Second) as [G|G];
    [|destruct (Z.ltb_spec (time.nsec t + Z.rem d time.Second) 0) as [L|L]];
    (rewrite addSec_exact;
     [|exact Hs|unfold int64, MinInt64, MaxInt64, time.Second in *; lia]);
    simpl; unfold time.Second in *; lia.
Qed.

(** The future check against a sane clock: the timestamp is after
    [now + skew] exactly when it is so as an instant, provided the seconds
    of [time.Unix] did not wrap around. *)
Lemma After_Unix_Add now ts skew :
  sane now -> int64 ts -> int64 skew ->
  time.After (time.Unix ts 0) (time.Add now skew) = true
  <-> ts + time.unixToInternal <= MaxInt64
      /\ ts * time.Second > time.instant now + skew.
Proof.
  intros Hnow Hts Hskew.
  destruct (Add_sane now skew Hnow Hskew) as [Hn Hsum].
  destruct Hnow as [[Hs Hns] Hb].
  rewrite Unix_0. unfold time.After, time.instant. simpl.
  pose proof (wrap64_range (ts + time.unixToInternal)) as Hr.
  destruct (wrap64_congr (ts + time.unixToInternal)) as [k Hk].
  revert Hn Hsum. generalize (time.Add now skew). intros t' Hn Hsum.
  rewrite Bool.orb_true_iff, Bool.andb_true_iff.
  rewrite !Z.gtb_gt, Z.eqb_eq.
  unfold int64, MinInt64, MaxInt64, time.Second, time.unixToInternal in *.
  lia.
Qed.

(** [Sub] against a sane clock: the difference of the instants, clamped to
    the range of a duration; a timestamp whose seconds wrapped around in
    [time.Unix] counts as infinitely old. *)
Lemma Sub_Unix now ts :
  sane now -> int64 ts ->
  let D := time.instant now - ts * time.Second in
  time.Sub now (time.Unix ts 0) =
    if decide (MaxInt64 < ts + time.unixToInternal) then time.maxDuration
    else if decide (D < MinInt64) then time.minDuration
    else if decide (MaxInt64 < D) then time.maxDuration
    else D.
Proof.
  intros Hnow Hts D. subst D. rewrite Unix_0.
  pose proof (wrap64_range (ts + time.unixToInternal)) as Ha.
  destruct (wrap64_congr (ts + time.unixToInternal)) as [ka Hka].
  revert Ha Hka. generalize (wrap64 (ts + time.unixToInternal)). intros a Ha Hka.
  unfold time.Sub. cbn [time.sec time.nsec].
  set (d := wrap64 (wrap64 (wrap64 (time.sec now - a) * time.Second)
                    + (time.nsec now - 0))).
  assert (int64 d) as Hd by apply wrap64_range.
  assert (exists k, d = (time.sec now - a) * time.Second + time.nsec now
                        + k * 2 ^ 64) as [kd Hkd].
  { subst d.
    destruct (wrap64_congr (time.sec now - a)) as [k1 H1].
    destruct (wrap64_congr (wrap64 (time.sec now - a) * time.Second))
      as [k2 H2].
    destruct (wrap64_congr (wrap64 (wrap64 (time.sec now - a) * time.Second)
                            + (time.nsec now - 0))) as [k3 H3].
    exists (k1 * time.Second + k2 + k3). rewrite H3, H2, H1. ring. }
  clearbody d.
  assert (time.wf (time.mkTime a 0)) as Hwf
    by (split; [exact Ha|unfold time.Second; simpl; lia]).
  destruct (Add_cases (time.mkTime a 0) d Hwf Hd)
    as (s' & n' & Hn & Hsum & Hn' & Hex & Hsat).
  revert Hn' Hex Hsat. generalize (time.Add (time.mkTime a 0) d).
  intros t' Hn' Hex Hsat. cbn [time.sec time.nsec] in Hsum.
  destruct Hnow as [[Hs Hns] Hb].
  assert (int64 s' \/ ~ int64 s') as [Hi|Hi]
    by (unfold int64, MinInt64, MaxInt64; lia);
    [specialize (Hex Hi); clear Hsat|specialize (Hsat Hi); clear Hex];
    unfold time.Equal, time.Before, time.instant; cbn [time.sec time.nsec];
    unfold time.maxDuration, time.minDuration;
    unfold int64, MinInt64, MaxInt64, time.Second, time.unixToInternal in *;
    destruct (Z.eqb_spec (time.sec t') (time.sec now));
    destruct (Z.eqb_spec (time.nsec t') (time.nsec now));
    destruct (Z.ltb_spec (time.sec now) a);
    destruct (Z.eqb_spec (time.sec now) a);
    destruct (Z.ltb_spec (time.nsec now) 0);
    repeat case_decide; cbn [andb orb]; lia.
Qed.

(** ** strconv.ParseInt *)

Lemma digits_value_mono cs n :
  0 <= n -> forallb is_digit cs = true -> n <= digits_value cs n.
Proof.
  revert n. induction cs as [|c cs IH]; intros n Hn H; simpl in *; [lia|].
  apply andb_prop in H as [Hc Hcs]. unfold is_digit in Hc.
  apply andb_prop in Hc as [H1 H2]. apply Z.leb_le in H1, H2.
  specialize (IH (n * 10 + (c - 48)) ltac:(lia) Hcs).
  unfold digits_value in *. lia.
Qed.

Lemma parseDigits_spec cs n :
  0 <= n <= MaxUint64 ->
  match strconv.parseDigits cs n with
  | (v, None) =>
      forallb is_digit cs = true /\ v = digits_value cs n /\ 0 <= v <= MaxUint64
  | (v, Some strconv.ErrRange) =>
      v = MaxUint64
      /\ (forallb is_digit cs = true -> MaxUint64 < digits_value cs n)
  | (_, Some strconv.ErrSyntax) => forallb is_digit cs = false
  end.
Proof.
  revert n. induction cs as [|c cs IH]; intros n Hn; simpl.
  - repeat split; lia.
  - fold (is_digit c). destruct (is_digit c) eqn:Hc; [|reflexivity].
    unfold is_digit in Hc. apply andb_prop in Hc as [H1 H2].
    apply Z.leb_le in H1, H2. unfold MaxUint64 in *.
    destruct (Z.geb_spec n (18446744073709551615 / 10 + 1)) as [G|G].
    { split; [reflexivity|]. intros Hcs.
      pose proof (digits_value_mono cs (n * 10 + (c - 48)) ltac:(lia) Hcs).
      unfold digits_value in *. simpl. lia. }
    destruct (Z.gtb_spec (n * 10 + (c - 48)) 18446744073709551615) as [G'|G'].
    { split; [reflexivity|]. intros Hcs.
      pose proof (digits_value_mono cs (n * 10 + (c - 48)) ltac:(lia) Hcs).
      unfold digits_value in *. simpl. lia. }
    specialize (IH (n * 10 + (c - 48)) ltac:(lia)).
    destruct (strconv.parseDigits cs (n * 10 + (c - 48))) as [v [[]|]];
      simpl; exact IH.
Qed.

(** [ParseInt] succeeds exactly on the base-10 readings that fit in 64
    bits, and returns the number read. *)
Lemma ParseInt_spec s v :
  strconv.ParseInt s = (v, None) <-> decimal s = Some v /\ int64 v.
Proof.
  unfold strconv.ParseInt, decimal.
  destruct (bytes s) as [|c rest]; [split; [discriminate|intros [? _]; discriminate]|].
  set (ds := if (c =? 43) || (c =? 45) then rest else c :: rest).
  unfold strconv.ParseUint.
  destruct ds as [|d ds'] eqn:Eds; [split; [discriminate|intros [? _]; discriminate]|].
  rewrite <- Eds. clear Eds d ds'.
  pose proof (parseDigits_spec ds 0 ltac:(unfold MaxUint64; lia)) as Hp.
  destruct (strconv.parseDigits ds 0) as [un [[]|]].
  - rewrite Hp. split; [discriminate|intros [? _]; discriminate].
  - destruct Hp as [-> Hp]. unfold MaxUint64, int64, MinInt64, MaxInt64 in *.
    destruct (forallb is_digit ds);
      [specialize (Hp eq_refl)|].
    + destruct (Z.eqb_spec c 45); simpl; split;
        try discriminate; intros [[= <-] ?]; lia.
    + destruct (Z.eqb_spec c 45); simpl; split;
        try discriminate; intros [? _]; discriminate.
  - destruct Hp as (-> & -> & Hr).
    unfold MaxUint64, int64, MinInt64, MaxInt64 in *.
    destruct (Z.eqb_spec c 45); simpl.
    + destruct (Z.gtb_spec (digits_value ds 0) (2 ^ 63)) as [G|G].
      * split; [discriminate|]. intros [[= <-] ?]. lia.
      * rewrite wrap64_id by (unfold int64, MinInt64, MaxInt64; lia).
        split; [intros [= <-]; split; [reflexivity|lia]
               |intros [[= <-] _]; reflexivity].
    + destruct (Z.geb_spec (digits_value ds 0) (2 ^ 63)) as [G|G].
      * split; [discriminate|]. intros [[= <-] ?]. lia.
      * split; [intros [= <-]; split; [reflexivity|lia]
               |intros [[= <-] _]; reflexivity].
Qed.

Lemma ParseInt_int64 s v : strconv.ParseInt s = (v, None) -> int64 v.
Proof. intros H. apply ParseInt_spec in H as [_ H]. exact H. Qed.

(** ** More on TrimSpace and hex *)

Lemma spaceWidth_app_zero c x :
  strings.spaceWidth (c ++ x) = O -> strings.spaceWidth c = O.
Proof.
  intros H. destruct (strings.spaceWidth c) as [|n] eqn:E; [reflexivity|].
  destruct (spaceWidth_sound c n E) as (w & r & -> & Hw & Hl).
  rewrite <- List.app_assoc, spaceWidth_complete in H by exact Hw.
  congruence.
Qed.

Lemma TrimRight_fixed s :
  strings.TrimRight (strings.TrimRight s) = strings.TrimRight s.
Proof.
  apply TrimRight_stop. rewrite TrimRight_trim, List.rev_involutive.
  destruct (trim_split strings.lastSpaceWidth
              (List.map (@rev Z) space_encodings) eq_refl
              lastSpaceWidth_complete rev_encodings_nonempty
              lastSpaceWidth_sound (rev s)) as (_ & _ & _ & H).
  exact H.
Qed.

(** Trimming twice is trimming once. *)
Lemma TrimSpace_idemp s :
  strings.TrimSpace (strings.TrimSpace s) = strings.TrimSpace s.
Proof.
  unfold strings.TrimSpace at 1 3.
  destruct (TrimLeft_split (bytes s)) as (ws1 & _ & Hs1 & Hw).
  destruct (TrimRight_split (strings.TrimLeft (bytes s))) as (ws2 & _ & Hs2).
  set (c := strings.TrimRight (strings.TrimLeft (bytes s))) in *.
  assert (Forall is_byte c) as Hc.
  { pose proof (bytes_range s) as Hb. rewrite Hs1, Hs2 in Hb.
    apply Forall_app in Hb as [_ Hb]. apply Forall_app in Hb as [Hb _].
    exact Hb. }
  f_equal. unfold strings.TrimSpace. fold c.
  rewrite bytes_string_of_bytes by exact Hc.
  rewrite TrimLeft_stop.
  - apply TrimRight_fixed.
  - rewrite Hs2 in Hw. apply spaceWidth_app_zero in Hw. exact Hw.
Qed.

Lemma fromHexChar_plain c a : hex.fromHexChar c = Some a -> plain c.
Proof.
  unfold hex.fromHexChar, plain, strings.asciiSpace. intros H.
  destruct (Z.leb_spec 48 c), (Z.leb_spec c 57), (Z.leb_spec 97 c),
    (Z.leb_spec c 102), (Z.leb_spec 65 c), (Z.leb_spec c 70);
    simpl in H; try discriminate;
    (split; [lia|]);
    destruct (Z.leb_spec 9 c), (Z.leb_spec c 13), (Z.eqb_spec c 32);
    simpl; try reflexivity; lia.
Qed.

Lemma Decode_plain l b : hex.Decode l = Some b -> Forall plain l.
Proof.
  revert b. induction l as [l IH] using (induction_ltof1 _ (@length Z)).
  unfold ltof in IH. intros b H.
  destruct l as [|p [|q rest]]; [constructor|discriminate|].
  simpl in H.
  destruct (hex.fromHexChar p) eqn:Hp; [|discriminate].
  destruct (hex.fromHexChar q) eqn:Hq; [|discriminate].
  destruct (hex.Decode rest) eqn:Hr; [|discriminate].
  constructor; [eapply fromHexChar_plain; eassumption|].
  constructor; [eapply fromHexChar_plain; eassumption|].
  eapply IH; [simpl; lia|exact Hr].
Qed.

(** A string that decodes to a non-empty byte sequence starts and ends with
    a hexadecimal digit. *)
Lemma DecodeString_plain_ends h b :
  hex.DecodeString h = Some b -> b <> [] -> plain_ends (bytes h).
Proof.
  unfold hex.DecodeString. intros H Hb.
  apply Forall_plain_ends; [eapply Decode_plain; eassumption|].
  intros E. rewrite E in H. simpl in H. congruence.
Qed.

(** * The signature verifier *)

Lemma bytewise_le_String_le s1 s2 : bytewise_le s1 s2 <-> String.le s1 s2.
Proof.
  unfold bytewise_le, String.le, String.leb.
  revert s2. induction s1 as [|c1 s1 IH]; intros [|c2 s2]; simpl;
    try tauto.
  specialize (IH s2). unfold bytes in IH.
  unfold Ascii.compare, byte_of_ascii.
  destruct (N.compare_spec (N_of_ascii c1) (N_of_ascii c2)) as [E|L|G].
  - rewrite E, <- IH. split; [intros [?|[_ ?]]; [lia|assumption]|auto].
  - simpl. split; [auto|]. intros _. left. lia.
  - simpl. split; [|contradiction]. intros [?|[? _]]; lia.
Qed.

Lemma StronglySorted_bytewise l :
  StronglySorted bytewise_le l <-> StronglySorted String.le l.
Proof.
  split; induction 1 as [|x l Hl IH Hx]; constructor; try exact IH;
    (eapply Forall_impl; [exact Hx|]); intros y Hy;
    apply bytewise_le_String_le; exact Hy.
Qed.

(** The order in which [range] yields the entries does not matter. *)
Lemma dataCheckPairs_order (query : Query) entries :
  entries ≡ₚ map_to_list query ->
  sort.Strings (dataCheckPairs entries) = sort.Strings (check_fields query).
Proof.
  intros Hp. apply Strings_unique; [|apply Strings_sorted].
  rewrite Strings_Permutation, dataCheckPairs_filter, Hp.
  rewrite filter_data_fields. reflexivity.
Qed.

Lemma verifyHash_range_iff (query : Query) entries botToken expectedHash :
  entries ≡ₚ map_to_list query ->
  verifyHash_range entries botToken expectedHash = None
  <-> hex.DecodeString (strings.TrimSpace expectedHash)
      = Some (expected_mac query botToken).
Proof.
  intros Hp. unfold verifyHash_range, expected_mac, canonical_check_string.
  rewrite (dataCheckPairs_order query entries Hp).
  destruct (hex.DecodeString (strings.TrimSpace expectedHash)) as [b|];
    [|split; discriminate].
  destruct (hmac.Equal _ b) eqn:E; cbn [negb].
  - apply hmac_Equal_eq in E. split; [intros _; congruence|reflexivity].
  - split; [discriminate|]. intros [= ->].
    rewrite (proj2 (hmac_Equal_eq _ _) eq_refl) in E. discriminate.
Qed.

Lemma verifyHash_order (query : Query) entries botToken expectedHash :
  entries ≡ₚ map_to_list query ->
  verifyHash_range entries botToken expectedHash
  = verifyHash query botToken expectedHash.
Proof.
  intros Hp. unfold verifyHash, verifyHash_range.
  rewrite (dataCheckPairs_order query entries Hp).
  rewrite (dataCheckPairs_order query (map_to_list query)) by reflexivity.
  reflexivity.
Qed.

Lemma verifyHash_iff (query : Query) botToken expectedHash :
  verifyHash query botToken expectedHash = None
  <-> hex.DecodeString (strings.TrimSpace expectedHash)
      = Some (expected_mac query botToken).
Proof. apply verifyHash_range_iff. reflexivity. Qed.

(** The verifier has one error value. *)
Lemma verifyHash_error (query : Query) botToken expectedHash err :
  verifyHash query botToken expectedHash = Some err ->
  err = ErrTelegramHashInvalid.
Proof.
  unfold verifyHash, verifyHash_range.
  destruct (hex.DecodeString _); [|congruence].
  destruct (negb _); congruence.
Qed.

Lemma check_fields_insert_hash (query : Query) h :
  check_fields (<["hash" := h]> query) = check_fields query.
Proof. unfold check_fields. rewrite delete_insert_eq. reflexivity. Qed.

Lemma expected_mac_insert_hash (query : Query) h secret :
  expected_mac (<["hash" := h]> query) secret = expected_mac query secret.
Proof.
  unfold expected_mac, canonical_check_string.
  rewrite check_fields_insert_hash. reflexivity.
Qed.

(** * The verification routine *)

Ltac conjs := repeat match goal with |- _ /\ _ => split end.
Ltac by_computation :=
  vm_compute; conjs; solve [reflexivity | discriminate | intros ?; discriminate].

Lemma VerifyWithConfig_unfold time_Now (query : Query) botToken config :
  VerifyWithConfig time_Now query botToken config =
  if String.eqb (secret_of botToken) ""
  then (AuthData_zero, Some ErrBotTokenRequired)
  else if String.eqb (field query "hash") ""
  then (AuthData_zero, Some ErrTelegramHashRequired)
  else
  match verifyHash query (secret_of botToken) (field query "hash") with
  | Some err => (AuthData_zero, Some err)
  | None =>
  if String.eqb (field query "id") ""
  then (AuthData_zero, Some ErrTelegramIDRequired)
  else
  match strconv.ParseInt (field query "id") with
  | (_, Some _) =>
      (AuthData_zero, Some (Errorf ErrTelegramIDInvalid (field query "id")))
  | (userID, None) =>
  if userID <=? 0
  then (AuthData_zero, Some (Errorf ErrTelegramIDInvalid (field query "id")))
  else if String.eqb (field query "auth_date") ""
  then (AuthData_zero, Some ErrTelegramAuthDateRequired)
  else
  match strconv.ParseInt (field query "auth_date") with
  | (_, Some _) =>
      (AuthData_zero,
       Some (Errorf ErrTelegramAuthDateInvalid (field query "auth_date")))
  | (authDateUnix, None) =>
  if time.After (time.Unix authDateUnix 0)
                (time.Add (clock time_Now config) (maxSkew config))
  then (AuthData_zero, Some ErrTelegramAuthDateFuture)
  else if time.Sub (clock time_Now config) (time.Unix authDateUnix 0)
          >? maxAge config
  then (AuthData_zero, Some ErrTelegramAuthDateExpired)
  else
    (mkAuthData userID (index query "username") (index query "first_name")
                (index query "last_name") (index query "photo_url")
                authDateUnix,
     None)
  end end end.
Proof.
  unfold VerifyWithConfig, clock, maxAge, maxSkew, secret_of, field.
  destruct (Now config); reflexivity.
Qed.

Lemma eqb_empty_false s : s <> "" -> String.eqb s "" = false.
Proof. intros H. apply String.eqb_neq. exact H. Qed.

Lemma TrimSpace_nonempty_Some (query : Query) key :
  field query key <> "" -> is_Some (query !! key).
Proof.
  unfold field, index. destruct (query !! key); [eauto|].
  intros H. exfalso. apply H. reflexivity.
Qed.

(** C9. Whenever verification returns an error, the record that comes with
    it is the zero record: the numeric fields are 0 and the text fields are
    empty, whatever the input, the secret and the policy.  The same holds
    for the two wrappers. *)
Theorem error_returns_zero_record :
  forall time_Now (query : Query) (values : url.Values) botToken config,
    (snd (VerifyWithConfig time_Now query botToken config) <> None ->
     fst (VerifyWithConfig time_Now query botToken config)
     = mkAuthData 0 "" "" "" "" 0)
    /\ (snd (Verify time_Now query botToken) <> None ->
        fst (Verify time_Now query botToken) = mkAuthData 0 "" "" "" "" 0)
    /\ (snd (VerifyURLValues time_Now values botToken) <> None ->
        fst (VerifyURLValues time_Now values botToken)
        = mkAuthData 0 "" "" "" "" 0).
Proof.
  assert (forall time_Now (query : Query) botToken config,
    snd (VerifyWithConfig time_Now query botToken config) <> None ->
    fst (VerifyWithConfig time_Now query botToken config) = AuthData_zero) as H.
  { intros time_Now query botToken config.
    rewrite VerifyWithConfig_unfold.
    repeat case_match; simpl; congruence. }
  intros. repeat split; apply H.
Qed.

(** C7. A shared secret that is empty or consists only of white space makes
    verification fail with the configuration error, whatever the input
    mapping and the policy are; no other check is reached. *)
Theorem blank_secret_is_configuration_error :
  forall time_Now (query : Query) botToken config,
    only_space botToken ->
    VerifyWithConfig time_Now query botToken config
    = (AuthData_zero, Some ErrBotTokenRequired).
Proof.
  intros time_Now query botToken config Hblank.
  rewrite VerifyWithConfig_unfold. unfold secret_of.
  rewrite (proj2 (TrimSpace_empty_iff botToken) Hblank). reflexivity.
Qed.

Lemma verifyHash_one_error (query : Query) tok h :
  verifyHash query tok h <> None ->
  verifyHash query tok h = Some ErrTelegramHashInvalid.
Proof.
  intros Hne. destruct (verifyHash query tok h) as [err|] eqn:E; [|congruence].
  apply verifyHash_error in E. congruence.
Qed.

Lemma bad_signature_rejected time_Now (query : Query) botToken config :
  secret_of botToken <> "" -> field query "hash" <> "" ->
  verifyHash query (secret_of botToken) (field query "hash") <> None ->
  VerifyWithConfig time_Now query botToken config
  = (AuthData_zero, Some ErrTelegramHashInvalid).
Proof.
  intros Hs Hh Hv. rewrite VerifyWithConfig_unfold.
  rewrite (eqb_empty_false _ Hs), (eqb_empty_false _ Hh).
  rewrite (verifyHash_one_error _ _ _ Hv). reflexivity.
Qed.

(** C4. The verifier has a single failure: a signature that is not
    hexadecimal and a well-formed signature that differs from the computed
    HMAC both give [ErrTelegramHashInvalid], and so does the verification
    routine whenever the secret is set and the signature field is present. *)
Theorem signature_failures_indistinguishable :
  forall time_Now (query : Query) secret config,
    (forall h, hex.DecodeString (strings.TrimSpace h) = None ->
       verifyHash query secret h = Some ErrTelegramHashInvalid)
    /\ (forall h b, hex.DecodeString (strings.TrimSpace h) = Some b ->
          b <> expected_mac query secret ->
          verifyHash query secret h = Some ErrTelegramHashInvalid)
    /\ (forall botToken,
          secret_of botToken <> "" -> field query "hash" <> "" ->
          verifyHash query (secret_of botToken) (field query "hash") <> None ->
          VerifyWithConfig time_Now query botToken config
          = (AuthData_zero, Some ErrTelegramHashInvalid)).
Proof.
  intros time_Now query secret config. split; [|split].
  - intros h Hd. apply verifyHash_one_error.
    rewrite verifyHash_iff, Hd. discriminate.
  - intros h b Hd Hb. apply verifyHash_one_error.
    rewrite verifyHash_iff, Hd. congruence.
  - intros botToken. apply bad_signature_rejected.
Qed.

(** ** The order of the checks *)

(** C2. Verification runs its checks in the fixed order: secret non-blank,
    signature field present after trimming, signature verified, identifier
    present, identifier parsed and range-checked, timestamp present,
    timestamp parsed, future check, expiry check; and its error is that of
    the first check that fails.  In particular, when the secret is set and
    the signature field is present but the signature does not verify, the
    result is the integrity error with the zero record, whatever the
    identifier and the timestamp are. *)
Theorem checks_run_in_order_first_failure :
  forall time_Now (query : Query) botToken config,
    snd (VerifyWithConfig time_Now query botToken config)
    = first_failure (checks time_Now query botToken config)
    /\ (secret_of botToken <> "" -> field query "hash" <> "" ->
        verifyHash query (secret_of botToken) (field query "hash") <> None ->
        VerifyWithConfig time_Now query botToken config
        = (AuthData_zero, Some ErrTelegramHashInvalid)).
Proof.
  intros time_Now query botToken config. split.
  - rewrite VerifyWithConfig_unfold. unfold checks.
    destruct (String.eqb (secret_of botToken) ""); [reflexivity|].
    destruct (String.eqb (field query "hash") ""); [reflexivity|].
    cbn [first_failure negb].
    destruct (verifyHash query (secret_of botToken) (field query "hash"))
      as [err|] eqn:Ev.
    { apply verifyHash_error in Ev. subst err.
      rewrite bool_decide_eq_false_2 by discriminate. reflexivity. }
    rewrite bool_decide_eq_true_2 by reflexivity.
    destruct (String.eqb (field query "id") ""); [reflexivity|].
    cbn [first_failure negb].
    destruct (strconv.ParseInt (field query "id")) as [uid [e|]];
      cbn [fst snd].
    { rewrite bool_decide_eq_false_2 by discriminate. reflexivity. }
    rewrite bool_decide_eq_true_2 by reflexivity. cbn [andb].
    destruct (Z.leb_spec uid 0); destruct (Z.ltb_spec 0 uid); try lia;
      [reflexivity|].
    destruct (String.eqb (field query "auth_date") ""); [reflexivity|].
    cbn [first_failure negb].
    destruct (strconv.ParseInt (field query "auth_date")) as [ts [e|]];
      cbn [fst snd].
    { rewrite bool_decide_eq_false_2 by discriminate. reflexivity. }
    rewrite bool_decide_eq_true_2 by reflexivity.
    destruct (time.After _ _); [reflexivity|].
    cbn [first_failure negb].
    destruct (_ >? _); reflexivity.
  - apply bad_signature_rejected.
Qed.

(** C1. The signature verifier accepts exactly when the hexadecimal
    decoding of the claimed signature is the HMAC-SHA256 of the canonical
    check string under the key SHA-256 of the bytes of the trimmed secret.
    The canonical check string is obtained from the strings [key=value] of
    every field except the signature field, arranged in byte-wise
    lexicographic order and joined by single newlines; [sorted] is any such
    arrangement, and [entries] any order in which the map yields its
    entries.  The verifier trims the claimed signature of surrounding white
    space before it decodes it; a signature that is already trimmed, as the
    one the routine hands over always is, is decoded as it stands. *)
Theorem verifier_accepts_iff_hmac_of_canonical_string :
  forall (query : Query) entries botToken expectedHash sorted,
    entries ≡ₚ map_to_list query ->
    sorted ≡ₚ check_fields query ->
    StronglySorted bytewise_le sorted ->
    let mac := hmac.Sum (sha256.Sum256 (bytes botToken))
                        (bytes (strings.Join sorted newline)) in
    (verifyHash_range entries botToken expectedHash = None
     <-> hex.DecodeString (strings.TrimSpace expectedHash) = Some mac)
    /\ (verifyHash_range entries botToken (strings.TrimSpace expectedHash)
        = None
        <-> hex.DecodeString (strings.TrimSpace expectedHash) = Some mac).
Proof.
  intros query entries botToken expectedHash sorted He Hp Hs mac.
  assert (mac = expected_mac query botToken) as ->.
  { subst mac. unfold expected_mac, canonical_check_string.
    rewrite (Strings_unique (check_fields query) sorted Hp)
      by (apply StronglySorted_bytewise; exact Hs).
    reflexivity. }
  split.
  - apply verifyHash_range_iff, He.
  - rewrite (verifyHash_range_iff query entries botToken _ He).
    rewrite TrimSpace_idemp. reflexivity.
Qed.

(** ** The record returned on success *)

(** On success the identifier of the record is the number read from the
    identifier field. *)
Lemma success_identifier time_Now (query : Query) botToken config r :
  VerifyWithConfig time_Now query botToken config = (r, None) ->
  decimal (field query "id") = Some (UserID r).
Proof.
  rewrite VerifyWithConfig_unfold.
  destruct (strconv.ParseInt (field query "id")) as [uid [e|]] eqn:Eid;
    repeat case_match; try discriminate.
  intros [= <-]. apply ParseInt_spec in Eid as [Eid _]. exact Eid.
Qed.

(** ** Inputs that pass the earlier checks *)

Ltac otherwise_valid_by_computation uid :=
  unfold otherwise_valid, valid_identifier;
  split; [by_computation|];
  split; [by_computation|];
  split; [exists uid; by_computation|by_computation].

Lemma maxAge_range config : int64 (AuthTTL config) -> 0 < maxAge config <= MaxInt64.
Proof.
  unfold maxAge, int64, MaxInt64. intros H.
  destruct (Z.leb_spec (AuthTTL config) 0); [vm_compute; split; [reflexivity|discriminate]|lia].
Qed.

Lemma maxSkew_range config :
  int64 (ClockSkew config) -> 0 < maxSkew config <= MaxInt64.
Proof.
  unfold maxSkew, int64, MaxInt64. intros H.
  destruct (Z.leb_spec (ClockSkew config) 0); [vm_compute; split; [reflexivity|discriminate]|lia].
Qed.

(** The routine on an input for which only the freshness checks remain. *)
Lemma VerifyWithConfig_fresh time_Now (query : Query) botToken config ts :
  otherwise_valid query botToken ts ->
  snd (VerifyWithConfig time_Now query botToken config) =
    if time.After (time.Unix ts 0)
                  (time.Add (clock time_Now config) (maxSkew config))
    then Some ErrTelegramAuthDateFuture
    else if time.Sub (clock time_Now config) (time.Unix ts 0) >? maxAge config
    then Some ErrTelegramAuthDateExpired
    else None.
Proof.
  intros ((Hs & Hh & Hv) & Hi & (uid & Hid & Hir & Hpos) & Ha & Hts & Htr).
  rewrite VerifyWithConfig_unfold.
  rewrite (eqb_empty_false _ Hs), (eqb_empty_false _ Hh), Hv,
    (eqb_empty_false _ Hi), (eqb_empty_false _ Ha).
  rewrite (proj2 (ParseInt_spec _ _) (conj Hid Hir)).
  rewrite (proj2 (ParseInt_spec _ _) (conj Hts Htr)).
  destruct (Z.leb_spec uid 0); [lia|].
  destruct (time.After _ _); [reflexivity|].
  destruct (_ >? _); reflexivity.
Qed.

(** The outcome of the freshness checks against a sane clock and a maximum
    age below the largest duration. *)
Lemma freshness_checks time_Now config ts :
  wf_policy time_Now config -> sane (clock time_Now config) ->
  maxAge config < time.maxDuration -> int64 ts ->
  let now := time.instant (clock time_Now config) in
  (if time.After (time.Unix ts 0)
                 (time.Add (clock time_Now config) (maxSkew config))
   then Some ErrTelegramAuthDateFuture
   else if time.Sub (clock time_Now config) (time.Unix ts 0) >? maxAge config
   then Some ErrTelegramAuthDateExpired
   else None)
  = if decide (MaxInt64 < ts + time.unixToInternal)
    then Some ErrTelegramAuthDateExpired
    else if decide (now + maxSkew config < ts * time.Second)
    then Some ErrTelegramAuthDateFuture
    else if decide (ts * time.Second < now - maxAge config)
    then Some ErrTelegramAuthDateExpired
    else None.
Proof.
  intros (Httl & Hskew & Hwf) Hsane Hmax Hts now.
  pose proof (maxAge_range config Httl) as Hage.
  pose proof (maxSkew_range config Hskew) as Hsk.
  assert (int64 (maxSkew config)) as Hski
    by (unfold int64, MinInt64, MaxInt64 in *; lia).
  pose proof (After_Unix_Add (clock time_Now config) ts (maxSkew config)
                Hsane Hts Hski) as Hafter.
  rewrite (Sub_Unix (clock time_Now config) ts Hsane Hts).
  fold now in Hafter |- *.
  destruct (time.After _ _).
  - destruct (proj1 Hafter eq_refl) as [H1 H2].
    rewrite decide_False by lia. rewrite decide_True by lia. reflexivity.
  - assert (~ (ts + time.unixToInternal <= MaxInt64
               /\ ts * time.Second > now + maxSkew config)) as Hn
      by (intros H; apply Hafter in H; discriminate).
    unfold time.maxDuration, time.minDuration, MaxInt64, MinInt64 in *.
    destruct (decide (9223372036854775807 < ts + time.unixToInternal)).
    { destruct (Z.gtb_spec 9223372036854775807 (maxAge config)); [reflexivity|lia]. }
    rewrite decide_False by lia.
    repeat case_decide;
      match goal with |- context [?a >? ?b] => destruct (Z.gtb_spec a b) end;
      try reflexivity; lia.
Qed.

(** ** The record and the policy *)

(** C5. When verification succeeds, the identifier of the record is the
    base-10 reading of the (trimmed) identifier field and is strictly
    positive, its timestamp is the base-10 reading of the (trimmed)
    timestamp field, and the display fields are those of the input, the
    empty string standing for an absent one.  The three required fields
    were present, the signature matched, and the timestamp passed the
    future and the expiry checks of the policy; against a sane clock and a
    maximum age below the largest duration, the timestamp lies in the
    freshness window [now - maxAge, now + maxSkew]. *)
Theorem success_record :
  forall time_Now (query : Query) botToken config r,
    VerifyWithConfig time_Now query botToken config = (r, None) ->
    (decimal (field query "id") = Some (UserID r) /\ 0 < UserID r
     /\ int64 (UserID r))
    /\ (decimal (field query "auth_date") = Some (AuthDateUnix r)
        /\ int64 (AuthDateUnix r))
    /\ (Username r = default "" (query !! "username")
        /\ FirstName r = default "" (query !! "first_name")
        /\ LastName r = default "" (query !! "last_name")
        /\ PhotoURL r = default "" (query !! "photo_url"))
    /\ (is_Some (query !! "hash") /\ is_Some (query !! "id")
        /\ is_Some (query !! "auth_date"))
    /\ hex.DecodeString (field query "hash")
       = Some (expected_mac query (secret_of botToken))
    /\ time.After (time.Unix (AuthDateUnix r) 0)
                  (time.Add (clock time_Now config) (maxSkew config)) = false
    /\ time.Sub (clock time_Now config) (time.Unix (AuthDateUnix r) 0)
       <= maxAge config
    /\ (wf_policy time_Now config ->
        sane (clock time_Now config) ->
        maxAge config < time.maxDuration ->
        in_window time_Now config (AuthDateUnix r)).
Proof.
  intros time_Now query botToken config r.
  rewrite VerifyWithConfig_unfold.
  destruct (String.eqb (secret_of botToken) ""); [discriminate|].
  destruct (String.eqb_spec (field query "hash") "") as [|Hh]; [discriminate|].
  destruct (verifyHash query (secret_of botToken) (field query "hash"))
    eqn:Ev; [discriminate|].
  destruct (String.eqb_spec (field query "id") "") as [|Hi]; [discriminate|].
  destruct (strconv.ParseInt (field query "id")) as [uid [e|]] eqn:Eid;
    [discriminate|].
  destruct (Z.leb_spec uid 0) as [|Hpos]; [discriminate|].
  destruct (String.eqb_spec (field query "auth_date") "") as [|Ha];
    [discriminate|].
  destruct (strconv.ParseInt (field query "auth_date")) as [ts [e|]] eqn:Ets;
    [discriminate|].
  destruct (time.After _ _) eqn:Ef; [discriminate|].
  destruct (Z.gtb_spec (time.Sub (clock time_Now config) (time.Unix ts 0))
              (maxAge config)) as [|He]; [discriminate|].
  intros [= <-]. cbn [UserID AuthDateUnix Username FirstName LastName PhotoURL].
  apply ParseInt_spec in Eid as [Eid Hid]. apply ParseInt_spec in Ets as [Ets Hts].
  apply verifyHash_iff in Ev. unfold field at 1 in Ev.
  rewrite TrimSpace_idemp in Ev. fold (field query "hash") in Ev.
  conjs; try assumption; try reflexivity;
    try (apply TrimSpace_nonempty_Some; assumption); try apply Hid; try apply Hts.
  intros Hwf Hsane Hmax.
  pose proof (freshness_checks time_Now config ts Hwf Hsane Hmax Hts) as Hf.
  cbv zeta in Hf. rewrite Ef in Hf.
  destruct (Z.gtb_spec (time.Sub (clock time_Now config) (time.Unix ts 0))
              (maxAge config)) as [Hgt|_]; [lia|].
  unfold in_window.
  repeat case_decide; try discriminate. lia.
Qed.

(** Counterexample to the last clause of the record claim.  With a maximum
    age equal to the largest duration the expiry check never fails
    ([time.Sub] saturates): the routine returns the record of the
    timestamp -8000000000 at the clock reading 1800000000, although the
    timestamp is older than [now - maxAge]. *)
Lemma record_claim_fails_for_largest_max_age : ~ record_claim.
Proof.
  intros H.
  specialize (H (fun _ => Example.now) OldTimestamp.query Example.token
                OldTimestamp.config
                (mkAuthData 42 "" "" "" "" (-8000000000))).
  assert (~ in_window (fun _ => Example.now) OldTimestamp.config (-8000000000))
    as Hout by (vm_compute; intros [Hlo _]; apply Hlo; reflexivity).
  apply Hout, H.
  - by_computation.
  - by_computation.
Qed.

(** ** The freshness window *)

(** Counterexample to the window claim.  [time.Sub] saturates at the
    largest duration, so with a maximum age equal to it the expiry check
    never fails: the timestamp -8000000000 is accepted at the clock reading
    1800000000 although it is older than [now - maxAge]. *)
Lemma window_claim_fails_for_largest_max_age : ~ window_claim.
Proof.
  intros H.
  specialize (H (fun _ => Example.now) OldTimestamp.query Example.token
                OldTimestamp.config (-8000000000)).
  assert (~ in_window (fun _ => Example.now) OldTimestamp.config (-8000000000))
    as Hout by (vm_compute; intros [Hlo _]; apply Hlo; reflexivity).
  apply Hout, H.
  - by_computation.
  - otherwise_valid_by_computation 42.
  - by_computation.
Qed.

(** The window claim also fails where the seconds of [time.Time] run out:
    the seconds of a timestamp ten seconds after the last representable
    second wrap around in [time.Unix], and the timestamp is rejected as
    expired although it lies in the window.  Hence the sane clock of the
    theorem below. *)
Lemma window_claim_fails_at_the_last_second : ~ window_claim.
Proof.
  intros H.
  specialize (H (fun _ => LastSecond.now) LastSecond.query Example.token
                LastSecond.config 9223371974719179017).
  assert (in_window (fun _ => LastSecond.now) LastSecond.config
            9223371974719179017) as Hin by by_computation.
  assert (snd (VerifyWithConfig (fun _ => LastSecond.now) LastSecond.query
                 Example.token LastSecond.config)
          = Some ErrTelegramAuthDateExpired) as Hrej by by_computation.
  rewrite (proj2 (H ltac:(by_computation)
                    ltac:(otherwise_valid_by_computation 42)) Hin) in Hrej.
  discriminate.
Qed.

(** C3, amended.  For every input that is otherwise valid, under a policy
    whose maximum age is below the largest duration and whose clock reading
    is sane, the timestamp is accepted exactly when it lies in the closed
    window [now - maxAge, now + maxSkew]: a timestamp equal to
    [now + maxSkew] succeeds and one second later fails with the future
    error; a timestamp equal to [now - maxAge] succeeds and one second
    older fails with the expired error. *)
Theorem timestamp_accepted_iff_in_window :
  forall time_Now (query : Query) botToken config ts,
    wf_policy time_Now config ->
    sane (clock time_Now config) ->
    maxAge config < time.maxDuration ->
    otherwise_valid query botToken ts ->
    let now := time.instant (clock time_Now config) in
    let err := snd (VerifyWithConfig time_Now query botToken config) in
    (err = None <-> in_window time_Now config ts)
    /\ (ts * time.Second = now + maxSkew config -> err = None)
    /\ (ts * time.Second = now + maxSkew config + time.Second ->
        err = Some ErrTelegramAuthDateFuture)
    /\ (ts * time.Second = now - maxAge config -> err = None)
    /\ (ts * time.Second = now - maxAge config - time.Second ->
        err = Some ErrTelegramAuthDateExpired).
Proof.
  intros time_Now query botToken config ts Hwf Hsane Hmax Hvalid now err.
  subst err. rewrite (VerifyWithConfig_fresh _ _ _ _ ts Hvalid).
  assert (int64 ts) as Hts by apply Hvalid.
  rewrite (freshness_checks time_Now config ts Hwf Hsane Hmax Hts).
  fold now. unfold in_window. fold now.
  destruct Hwf as (Httl & Hskew & _).
  pose proof (maxAge_range config Httl) as Hage.
  pose proof (maxSkew_range config Hskew) as Hsk.
  assert (- 2 ^ 62 * time.Second - time.unixToInternal * time.Second <= now
          <= 2 ^ 62 * time.Second + time.Second) as Hnow.
  { destruct Hsane as [[_ Hn] Hb]. subst now. unfold time.instant.
    unfold time.Second, time.unixToInternal in *. lia. }
  clearbody now.
  unfold time.maxDuration, time.Second, time.unixToInternal, int64,
    MinInt64, MaxInt64 in *.
  repeat split; intros; repeat case_decide; try congruence; try lia.
Qed.

(** ** The identifier *)

(** Counterexample to the identifier claim.  An identifier field that is
    empty does not parse, and the routine answers with the
    identifier-required error, which is not the identifier-invalid one. *)
Lemma identifier_claim_fails_for_blank_identifier : ~ identifier_claim.
Proof.
  intros H.
  destruct (H (fun _ => Example.now) EmptyIdentifier.query Example.token
              Example.config) as (err & Herr & His).
  - unfold correctly_signed. by_computation.
  - vm_compute. eauto.
  - intros (v & Hv & _). vm_compute in Hv. discriminate.
  - vm_compute in Herr. injection Herr as <-. vm_compute in His. discriminate.
Qed.

(** C6, amended.  On every correctly signed input whose identifier field is
    not blank, an identifier that does not read as a base-10 number of 64
    bits, or that reads as zero or a negative number, yields the one
    identifier-invalid error, which carries the trimmed text of the field;
    an identifier that reads as a positive number passes, so that no
    identifier error is returned; the identifier 42 is such a one. *)
Theorem identifier_invalid_error :
  forall time_Now (query : Query) botToken config,
    correctly_signed query botToken ->
    field query "id" <> "" ->
    (~ valid_identifier query ->
     VerifyWithConfig time_Now query botToken config
     = (AuthData_zero, Some (Errorf ErrTelegramIDInvalid (field query "id")))
     /\ errors.Is (Errorf ErrTelegramIDInvalid (field query "id"))
                  ErrTelegramIDInvalid = true)
    /\ (valid_identifier query ->
        forall err,
          snd (VerifyWithConfig time_Now query botToken config) = Some err ->
          errors.Is err ErrTelegramIDInvalid = false
          /\ errors.Is err ErrTelegramIDRequired = false)
    /\ (field query "id" = "42" -> valid_identifier query).
Proof.
  intros time_Now query botToken config (Hs & Hh & Hv) Hi.
  rewrite VerifyWithConfig_unfold.
  rewrite (eqb_empty_false _ Hs), (eqb_empty_false _ Hh), Hv,
    (eqb_empty_false _ Hi).
  split; [|split].
  - intros Hbad. split; [|reflexivity].
    destruct (strconv.ParseInt (field query "id")) as [uid [e|]] eqn:Eid;
      [reflexivity|].
    destruct (Z.leb_spec uid 0) as [Hle|Hgt]; [reflexivity|].
    exfalso. apply Hbad. exists uid.
    apply ParseInt_spec in Eid as [Hd Hr]. auto.
  - intros (v & Hd & Hr & Hpos) err.
    rewrite (proj2 (ParseInt_spec _ _) (conj Hd Hr)).
    destruct (Z.leb_spec v 0); [lia|].
    repeat case_match; cbn [snd]; intros [= <-]; split; reflexivity.
  - intros E. exists 42. rewrite E. by_computation.
Qed.

(** ** The adapter for url.Values *)

Lemma flatten_range_lookup (values : url.Values) keys (acc : Query) k :
  fold_left (fun query key => <[key := url.Get values key]> query) keys acc !! k
  = if decide (k ∈ keys) then Some (url.Get values k) else acc !! k.
Proof.
  revert acc. induction keys as [|key keys IH]; intros acc; cbn [fold_left].
  - rewrite decide_False by apply not_elem_of_nil. reflexivity.
  - rewrite IH. destruct (decide (k ∈ keys)) as [Hin|Hout].
    + rewrite decide_True by (apply elem_of_cons; auto). reflexivity.
    + destruct (decide (k = key)) as [->|Hne].
      * rewrite decide_True by (apply elem_of_cons; auto).
        apply lookup_insert_eq.
      * rewrite decide_False by (rewrite elem_of_cons; tauto).
        apply lookup_insert_ne. congruence.
Qed.

(** The loop of the adapter builds [first_values], in whatever order the
    keys come. *)
Lemma flatten_range_first_values (values : url.Values) keys :
  keys ≡ₚ (fst <$> map_to_list values) ->
  flatten_range values keys = first_values values.
Proof.
  intros Hp. apply map_eq. intros k.
  unfold flatten_range, first_values.
  rewrite flatten_range_lookup, lookup_fmap, lookup_empty.
  destruct (values !! k) as [vs|] eqn:E.
  - rewrite decide_True.
    + unfold url.Get. rewrite E. destruct vs; reflexivity.
    + rewrite Hp. apply list_elem_of_fmap. exists (k, vs).
      split; [reflexivity|]. apply elem_of_map_to_list. exact E.
  - rewrite decide_False; [reflexivity|].
    rewrite Hp. intros Hin. apply list_elem_of_fmap in Hin as ([k' vs] & -> & Hin).
    apply elem_of_map_to_list in Hin. simpl in E. congruence.
Qed.

(** C8. The adapter turns the multi-valued container into the
    single-valued mapping that holds the first value of each key, in
    whatever order it visits the keys, and returns what [Verify] returns on
    that mapping, adding no check of its own.  In particular, when the
    values of [id] are 42 followed by others (999, say) and verification
    succeeds, the identifier of the record is 42. *)
Theorem adapter_takes_first_value :
  forall time_Now (values : url.Values) botToken keys,
    keys ≡ₚ (fst <$> map_to_list values) ->
    flatten_range values keys = first_values values
    /\ VerifyURLValues time_Now values botToken
       = Verify time_Now (first_values values) botToken
    /\ (forall rest r,
          values !! "id" = Some ("42" :: rest) ->
          VerifyURLValues time_Now values botToken = (r, None) ->
          UserID r = 42).
Proof.
  intros time_Now values botToken keys Hp.
  assert (VerifyURLValues time_Now values botToken
          = Verify time_Now (first_values values) botToken) as Heq.
  { unfold VerifyURLValues.
    rewrite (flatten_range_first_values values _ (reflexivity _)).
    reflexivity. }
  split; [apply flatten_range_first_values, Hp|].
  split; [exact Heq|].
  intros rest r Hid Hok. rewrite Heq in Hok. unfold Verify in Hok.
  apply success_identifier in Hok as Hd.
  unfold field, index, first_values in Hd.
  rewrite lookup_fmap, Hid in Hd.
  change (decimal "42" = Some (UserID r)) in Hd.
  vm_compute (decimal "42") in Hd. congruence.
Qed.

(** ** White space around the signature *)

Lemma index_insert_ne (query : Query) k v key :
  k <> key -> index (<[k := v]> query) key = index query key.
Proof. intros H. unfold index. rewrite lookup_insert_ne by exact H. reflexivity. Qed.

Lemma index_insert_eq (query : Query) k v : index (<[k := v]> query) k = v.
Proof. unfold index. rewrite lookup_insert_eq. reflexivity. Qed.

Lemma verifyHash_insert_hash (query : Query) h1 h2 tok h :
  verifyHash (<["hash" := h1]> query) tok h
  = verifyHash (<["hash" := h2]> query) tok h.
Proof.
  destruct (verifyHash (<["hash" := h1]> query) tok h) as [e1|] eqn:E1;
    destruct (verifyHash (<["hash" := h2]> query) tok h) as [e2|] eqn:E2.
  - apply verifyHash_error in E1, E2. congruence.
  - apply verifyHash_iff in E2. rewrite expected_mac_insert_hash in E2.
    rewrite <- (expected_mac_insert_hash query h1) in E2.
    apply verifyHash_iff in E2. congruence.
  - apply verifyHash_iff in E1. rewrite expected_mac_insert_hash in E1.
    rewrite <- (expected_mac_insert_hash query h2) in E1.
    apply verifyHash_iff in E1. congruence.
  - reflexivity.
Qed.

(** Two signature fields with the same trimmed value give the same
    result. *)
Lemma VerifyWithConfig_hash_trim time_Now (query : Query) h1 h2 botToken config :
  strings.TrimSpace h1 = strings.TrimSpace h2 ->
  VerifyWithConfig time_Now (<["hash" := h1]> query) botToken config
  = VerifyWithConfig time_Now (<["hash" := h2]> query) botToken config.
Proof.
  intros Ht. rewrite !VerifyWithConfig_unfold. unfold field.
  rewrite !index_insert_eq, Ht.
  rewrite !index_insert_ne by discriminate.
  rewrite (verifyHash_insert_hash query h1 h2). reflexivity.
Qed.

(** C10. The value of the signature field is trimmed of surrounding white
    space before it is decoded and compared.  When the secret is set and
    [h] is a hexadecimal digest of the expected HMAC, the mapping whose
    signature field is [h] padded with white space on either side passes
    the signature check: the field is read as [h], the verifier accepts
    the padded value as it stands, the routine returns none of the
    secret-required, signature-required and signature-invalid errors, and
    it returns what it returns for the field [h] itself.  When moreover
    the identifier and the timestamp are valid and the timestamp is fresh,
    the routine returns the record and no error. *)
Theorem padded_signature_verifies :
  forall time_Now (query : Query) botToken config h ws1 ws2,
    only_space ws1 -> only_space ws2 ->
    secret_of botToken <> "" ->
    hex.DecodeString h = Some (expected_mac query (secret_of botToken)) ->
    let padded := <["hash" := ws1 +:+ h +:+ ws2]> query in
    let result := VerifyWithConfig time_Now padded botToken config in
    field padded "hash" = h
    /\ verifyHash padded (secret_of botToken) (ws1 +:+ h +:+ ws2) = None
    /\ (snd result <> Some ErrBotTokenRequired
        /\ snd result <> Some ErrTelegramHashRequired
        /\ snd result <> Some ErrTelegramHashInvalid)
    /\ result
       = VerifyWithConfig time_Now (<["hash" := h]> query) botToken config
    /\ (forall uid ts,
          decimal (field query "id") = Some uid -> int64 uid -> 0 < uid ->
          decimal (field query "auth_date") = Some ts -> int64 ts ->
          wf_policy time_Now config ->
          sane (clock time_Now config) ->
          maxAge config < time.maxDuration ->
          in_window time_Now config ts ->
          result
          = (mkAuthData uid (index query "username")
               (index query "first_name") (index query "last_name")
               (index query "photo_url") ts,
             None)).
Proof.
  intros time_Now query botToken config h ws1 ws2 H1 H2 Hs Hd padded result.
  assert (plain_ends (bytes h)) as Hp
    by (eapply DecodeString_plain_ends; [exact Hd|apply hmac_Sum_nonempty]).
  assert (strings.TrimSpace (ws1 +:+ h +:+ ws2) = h) as Htrim
    by (apply TrimSpace_padded; assumption).
  assert (field padded "hash" = h) as Hf
    by (unfold field, padded; rewrite index_insert_eq; exact Htrim).
  assert (h <> "") as Hne.
  { intros ->. change (hex.DecodeString "") with (Some (@nil Z)) in Hd.
    injection Hd as Hd. symmetry in Hd. exact (hmac_Sum_nonempty _ _ Hd). }
  assert (verifyHash padded (secret_of botToken) h = None) as Hv.
  { apply verifyHash_iff. rewrite (TrimSpace_plain h Hp). unfold padded.
    rewrite expected_mac_insert_hash. exact Hd. }
  assert (forall key, key <> "hash" -> field padded key = field query key)
    as Hother.
  { intros key Hk. unfold field, padded. rewrite index_insert_ne by congruence.
    reflexivity. }
  assert (forall key, key <> "hash" -> index padded key = index query key)
    as Hindex.
  { intros key Hk. unfold padded. rewrite index_insert_ne by congruence.
    reflexivity. }
  assert (result =
    if String.eqb (field query "id") ""
    then (AuthData_zero, Some ErrTelegramIDRequired)
    else
    match strconv.ParseInt (field query "id") with
    | (_, Some _) =>
        (AuthData_zero, Some (Errorf ErrTelegramIDInvalid (field query "id")))
    | (userID, None) =>
    if userID <=? 0
    then (AuthData_zero, Some (Errorf ErrTelegramIDInvalid (field query "id")))
    else if String.eqb (field query "auth_date") ""
    then (AuthData_zero, Some ErrTelegramAuthDateRequired)
    else
    match strconv.ParseInt (field query "auth_date") with
    | (_, Some _) =>
        (AuthData_zero,
         Some (Errorf ErrTelegramAuthDateInvalid (field query "auth_date")))
    | (authDateUnix, None) =>
    if time.After (time.Unix authDateUnix 0)
                  (time.Add (clock time_Now config) (maxSkew config))
    then (AuthData_zero, Some ErrTelegramAuthDateFuture)
    else if time.Sub (clock time_Now config) (time.Unix authDateUnix 0)
            >? maxAge config
    then (AuthData_zero, Some ErrTelegramAuthDateExpired)
    else
      (mkAuthData userID (index query "username") (index query "first_name")
                  (index query "last_name") (index query "photo_url")
                  authDateUnix,
       None)
    end end) as Hrest.
  { unfold result. rewrite VerifyWithConfig_unfold.
    rewrite (eqb_empty_false _ Hs), Hf, (eqb_empty_false _ Hne), Hv.
    rewrite !Hother, !Hindex by discriminate. reflexivity. }
  split; [exact Hf|]. split; [|split; [|split]].
  - apply verifyHash_iff. rewrite Htrim. unfold padded.
    rewrite expected_mac_insert_hash. exact Hd.
  - rewrite Hrest. repeat case_match; cbn [snd]; conjs; discriminate.
  - apply VerifyWithConfig_hash_trim.
    rewrite Htrim. symmetry. apply TrimSpace_plain, Hp.
  - intros uid ts Hid Hir Hpos Hts Htr Hwf Hsane Hmax Hwin.
    pose proof (freshness_checks time_Now config ts Hwf Hsane Hmax Htr) as Hfr.
    cbv zeta in Hfr.
    assert (~ MaxInt64 < ts + time.unixToInternal) as Hnowrap.
    { destruct Hwf as (_ & Hskew & _).
      pose proof (maxSkew_range config Hskew) as Hsk.
      destruct Hsane as [[_ Hn] Hb]. unfold in_window, time.instant in Hwin.
      unfold MaxInt64, time.Second, time.unixToInternal in *. lia. }
    unfold in_window in Hwin.
    rewrite decide_False in Hfr by exact Hnowrap.
    rewrite decide_False in Hfr by lia. rewrite decide_False in Hfr by lia.
    assert (field query "id" <> "") as Hi by (intros E; rewrite E in Hid; discriminate).
    assert (field query "auth_date" <> "") as Ha
      by (intros E; rewrite E in Hts; discriminate).
    rewrite Hrest, (eqb_empty_false _ Hi), (eqb_empty_false _ Ha),
      (proj2 (ParseInt_spec _ _) (conj Hid Hir)),
      (proj2 (ParseInt_spec _ _) (conj Hts Htr)).
    destruct (Z.leb_spec uid 0); [lia|].
    destruct (time.After _ _); [discriminate|].
    destruct (_ >? _); [discriminate|]. reflexivity.
Qed.

(** * The theorems at concrete inputs *)

Lemma verifier_accepts_iff_hmac_of_canonical_string_witness :
  rev (map_to_list Witness.query) ≡ₚ map_to_list Witness.query
  /\ Witness.sorted ≡ₚ check_fields Witness.query
  /\ StronglySorted bytewise_le Witness.sorted
  /\ (verifyHash_range (rev (map_to_list Witness.query)) Example.token
        (index Witness.query "hash") = None
      <-> hex.DecodeString (strings.TrimSpace (index Witness.query "hash"))
          = Some (hmac.Sum (sha256.Sum256 (bytes Example.token))
                           (bytes (strings.Join Witness.sorted newline)))).
Proof.
  assert (Witness.sorted = sort.Strings (check_fields Witness.query)) as E
    by (vm_compute; reflexivity).
  assert (rev (map_to_list Witness.query) ≡ₚ map_to_list Witness.query) as H1
    by (symmetry; apply Permutation_rev).
  assert (Witness.sorted ≡ₚ check_fields Witness.query) as H2
    by (rewrite E; apply Strings_Permutation).
  assert (StronglySorted bytewise_le Witness.sorted) as H3
    by (rewrite E; apply StronglySorted_bytewise, Strings_sorted).
  split; [exact H1|]. split; [exact H2|]. split; [exact H3|].
  exact (proj1 (verifier_accepts_iff_hmac_of_canonical_string Witness.query
                  (rev (map_to_list Witness.query)) Example.token
                  (index Witness.query "hash") Witness.sorted H1 H2 H3)).
Defined.

Lemma checks_run_in_order_first_failure_witness :
  secret_of Example.token <> "" /\ field Witness.not_hex "hash" <> ""
  /\ verifyHash Witness.not_hex (secret_of Example.token)
       (field Witness.not_hex "hash") <> None
  /\ VerifyWithConfig Witness.clock_now Witness.not_hex Example.token
       Example.config
     = (AuthData_zero, Some ErrTelegramHashInvalid).
Proof.
  assert (secret_of Example.token <> "") as H1 by by_computation.
  assert (field Witness.not_hex "hash" <> "") as H2 by by_computation.
  assert (verifyHash Witness.not_hex (secret_of Example.token)
            (field Witness.not_hex "hash") <> None) as H3 by by_computation.
  split; [exact H1|]. split; [exact H2|]. split; [exact H3|].
  exact (proj2 (checks_run_in_order_first_failure Witness.clock_now
                  Witness.not_hex Example.token Example.config) H1 H2 H3).
Defined.

Lemma timestamp_accepted_iff_in_window_witness :
  wf_policy Witness.clock_now Example.config
  /\ sane (clock Witness.clock_now Example.config)
  /\ maxAge Example.config < time.maxDuration
  /\ otherwise_valid Witness.ahead Example.token 1800000030
  /\ snd (VerifyWithConfig Witness.clock_now Witness.ahead Example.token
            Example.config) = None.
Proof.
  assert (wf_policy Witness.clock_now Example.config) as H1 by by_computation.
  assert (sane (clock Witness.clock_now Example.config)) as H2
    by by_computation.
  assert (maxAge Example.config < time.maxDuration) as H3 by by_computation.
  assert (otherwise_valid Witness.ahead Example.token 1800000030) as H4
    by otherwise_valid_by_computation 42.
  split; [exact H1|]. split; [exact H2|]. split; [exact H3|].
  split; [exact H4|].
  refine (proj1 (proj2 (timestamp_accepted_iff_in_window Witness.clock_now
                          Witness.ahead Example.token Example.config
                          1800000030 H1 H2 H3 H4)) _).
  by_computation.
Defined.

Lemma signature_failures_indistinguishable_witness :
  hex.DecodeString (strings.TrimSpace "xyz") = None
  /\ verifyHash Witness.not_hex Example.token "xyz"
     = Some ErrTelegramHashInvalid.
Proof.
  assert (hex.DecodeString (strings.TrimSpace "xyz") = None) as H1
    by by_computation.
  split; [exact H1|].
  exact (proj1 (signature_failures_indistinguishable Witness.clock_now
                  Witness.not_hex Example.token Example.config) "xyz" H1).
Defined.

Lemma success_record_witness :
  VerifyWithConfig Witness.clock_now Witness.query Example.token Example.config
  = (mkAuthData 42 "john_doe" "John" "" "" 1800000000, None)
  /\ wf_policy Witness.clock_now Example.config
  /\ sane (clock Witness.clock_now Example.config)
  /\ maxAge Example.config < time.maxDuration
  /\ decimal (field Witness.query "id") = Some 42
  /\ decimal (field Witness.query "auth_date") = Some 1800000000
  /\ in_window Witness.clock_now Example.config 1800000000.
Proof.
  assert (VerifyWithConfig Witness.clock_now Witness.query Example.token
            Example.config
          = (mkAuthData 42 "john_doe" "John" "" "" 1800000000, None)) as H1
    by by_computation.
  assert (wf_policy Witness.clock_now Example.config) as H2 by by_computation.
  assert (sane (clock Witness.clock_now Example.config)) as H3
    by by_computation.
  assert (maxAge Example.config < time.maxDuration) as H4 by by_computation.
  pose proof (success_record Witness.clock_now Witness.query Example.token
                Example.config _ H1)
    as ((Hid & _) & (Hts & _) & _ & _ & _ & _ & _ & Hwin).
  split; [exact H1|]. split; [exact H2|]. split; [exact H3|].
  split; [exact H4|]. split; [exact Hid|]. split; [exact Hts|].
  exact (Hwin H2 H3 H4).
Defined.

Lemma identifier_invalid_error_witness :
  correctly_signed Witness.zero_id Example.token
  /\ field Witness.zero_id "id" <> ""
  /\ ~ valid_identifier Witness.zero_id
  /\ VerifyWithConfig Witness.clock_now Witness.zero_id Example.token
       Example.config
     = (AuthData_zero, Some (Errorf ErrTelegramIDInvalid "0")).
Proof.
  assert (correctly_signed Witness.zero_id Example.token) as H1
    by (unfold correctly_signed; by_computation).
  assert (field Witness.zero_id "id" <> "") as H2 by by_computation.
  assert (~ valid_identifier Witness.zero_id) as H3.
  { intros (v & Hv & _ & Hpos). vm_compute in Hv. injection Hv as <-.
    vm_compute in Hpos. discriminate. }
  split; [exact H1|]. split; [exact H2|]. split; [exact H3|].
  exact (proj1 (proj1 (identifier_invalid_error Witness.clock_now
                         Witness.zero_id Example.token Example.config H1 H2)
                  H3)).
Defined.

Lemma blank_secret_is_configuration_error_witness :
  only_space Witness.blank
  /\ VerifyWithConfig Witness.clock_now Witness.query Witness.blank
       Example.config
     = (AuthData_zero, Some ErrBotTokenRequired).
Proof.
  assert (only_space Witness.blank) as H1.
  { unfold only_space.
    change (bytes Witness.blank) with ([32] ++ [9] ++ [194; 160] ++ [])%list.
    repeat (apply Blank_cons; [in_concrete|]). constructor. }
  split; [exact H1|].
  exact (blank_secret_is_configuration_error Witness.clock_now Witness.query
           Witness.blank Example.config H1).
Defined.

Lemma adapter_takes_first_value_witness :
  (fst <$> map_to_list Witness.values) ≡ₚ (fst <$> map_to_list Witness.values)
  /\ Witness.values !! "id" = Some ["42"; "999"]
  /\ VerifyURLValues Witness.clock_now Witness.values Example.token
     = (mkAuthData 42 "john_doe" "John" "" "" 1800000000, None)
  /\ UserID (mkAuthData 42 "john_doe" "John" "" "" 1800000000) = 42.
Proof.
  assert (Witness.values !! "id" = Some ["42"; "999"]) as H1 by by_computation.
  assert (VerifyURLValues Witness.clock_now Witness.values Example.token
          = (mkAuthData 42 "john_doe" "John" "" "" 1800000000, None)) as H2
    by by_computation.
  split; [reflexivity|]. split; [exact H1|]. split; [exact H2|].
  exact (proj2 (proj2 (adapter_takes_first_value Witness.clock_now
                         Witness.values Example.token _ (reflexivity _)))
           ["999"] _ H1 H2).
Defined.

Lemma error_returns_zero_record_witness :
  snd (VerifyWithConfig Witness.clock_now Witness.not_hex Example.token
         Example.config) <> None
  /\ fst (VerifyWithConfig Witness.clock_now Witness.not_hex Example.token
            Example.config) = mkAuthData 0 "" "" "" "" 0.
Proof.
  assert (snd (VerifyWithConfig Witness.clock_now Witness.not_hex
                 Example.token Example.config) <> None) as H1
    by by_computation.
  split; [exact H1|].
  exact (proj1 (error_returns_zero_record Witness.clock_now Witness.not_hex
                  Witness.values Example.token Example.config) H1).
Defined.

Lemma padded_signature_verifies_witness :
  only_space Witness.blank /\ only_space newline
  /\ secret_of Example.token <> ""
  /\ hex.DecodeString (Example.sign Example.fields)
     = Some (expected_mac Example.fields (secret_of Example.token))
  /\ (decimal (field Example.fields "id") = Some 42
      /\ decimal (field Example.fields "auth_date") = Some 1800000000)
  /\ (wf_policy Witness.clock_now Example.config
      /\ sane (clock Witness.clock_now Example.config)
      /\ maxAge Example.config < time.maxDuration
      /\ in_window Witness.clock_now Example.config 1800000000)
  /\ field (<["hash" := Witness.padded]> Example.fields) "hash"
     = Example.sign Example.fields
  /\ verifyHash (<["hash" := Witness.padded]> Example.fields)
       (secret_of Example.token) Witness.padded = None
  /\ snd (VerifyWithConfig Witness.clock_now
            (<["hash" := Witness.padded]> Example.fields)
            Example.token Example.config) <> Some ErrTelegramHashInvalid
  /\ VerifyWithConfig Witness.clock_now
       (<["hash" := Witness.padded]> Example.fields)
       Example.token Example.config
     = VerifyWithConfig Witness.clock_now
         (<["hash" := Example.sign Example.fields]> Example.fields)
         Example.token Example.config
  /\ VerifyWithConfig Witness.clock_now
       (<["hash" := Witness.padded]> Example.fields)
       Example.token Example.config
     = (mkAuthData 42 (index Example.fields "username")
                   (index Example.fields "first_name")
                   (index Example.fields "last_name")
                   (index Example.fields "photo_url") 1800000000, None).
Proof.
  assert (only_space Witness.blank) as H1.
  { unfold only_space.
    change (bytes Witness.blank) with ([32] ++ [9] ++ [194; 160] ++ [])%list.
    repeat (apply Blank_cons; [in_concrete|]). constructor. }
  assert (only_space newline) as H2.
  { unfold only_space. change (bytes newline) with ([10] ++ [])%list.
    apply Blank_cons; [in_concrete|constructor]. }
  assert (secret_of Example.token <> "") as H3 by by_computation.
  assert (hex.DecodeString (Example.sign Example.fields)
          = Some (expected_mac Example.fields (secret_of Example.token))) as H4
    by by_computation.
  assert (decimal (field Example.fields "id") = Some 42) as H5
    by by_computation.
  assert (decimal (field Example.fields "auth_date") = Some 1800000000) as H6
    by by_computation.
  assert (wf_policy Witness.clock_now Example.config) as H7 by by_computation.
  assert (sane (clock Witness.clock_now Example.config)) as H8
    by by_computation.
  assert (maxAge Example.config < time.maxDuration) as H9 by by_computation.
  assert (in_window Witness.clock_now Example.config 1800000000) as H10
    by by_computation.
  pose proof (padded_signature_verifies Witness.clock_now Example.fields
                Example.token Example.config _ _ _ H1 H2 H3 H4)
    as (Hf & Hv & (_ & _ & Hn) & He & Hok).
  split; [exact H1|]. split; [exact H2|]. split; [exact H3|].
  split; [exact H4|]. split; [split; [exact H5|exact H6]|].
  split; [conjs; assumption|].
  split; [exact Hf|].
  split; [exact Hv|]. split; [exact Hn|]. split; [exact He|].
  apply (Hok 42 1800000000 H5); solve [by_computation | assumption].
Defined.

(** * Further properties of the package *)

Lemma absent_or_blank_field (query : Query) key :
  absent_or_blank query key -> field query key = "".
Proof.
  unfold absent_or_blank, field, index.
  destruct (query !! key) as [v|]; simpl; [|reflexivity].
  apply TrimSpace_empty_iff.
Qed.

Lemma decimal_nonempty s v : decimal s = Some v -> s <> "".
Proof. intros H ->. discriminate. Qed.

Lemma valid_identifier_parse (query : Query) :
  valid_identifier query ->
  field query "id" <> ""
  /\ exists uid, strconv.ParseInt (field query "id") = (uid, None) /\ 0 < uid.
Proof.
  intros (v & Hd & Hr & Hpos). split; [eapply decimal_nonempty; eassumption|].
  exists v. split; [apply ParseInt_spec; auto|exact Hpos].
Qed.

(** X2. With the secret set, a mapping without the key [hash], or with a
    [hash] value that is empty or white space only, gives the
    hash-required error, whatever the other fields hold. *)
Theorem missing_hash_is_required_error :
  forall time_Now (query : Query) botToken config,
    secret_of botToken <> "" ->
    absent_or_blank query "hash" ->
    VerifyWithConfig time_Now query botToken config
    = (AuthData_zero, Some ErrTelegramHashRequired).
Proof.
  intros time_Now query botToken config Hs Hh.
  rewrite VerifyWithConfig_unfold, (eqb_empty_false _ Hs).
  rewrite (absent_or_blank_field _ _ Hh). reflexivity.
Qed.

(** X3. A correctly signed mapping without the key [id], or with an [id]
    value that is empty or white space only, gives the id-required
    error. *)
Theorem missing_id_is_required_error :
  forall time_Now (query : Query) botToken config,
    correctly_signed query botToken ->
    absent_or_blank query "id" ->
    VerifyWithConfig time_Now query botToken config
    = (AuthData_zero, Some ErrTelegramIDRequired).
Proof.
  intros time_Now query botToken config (Hs & Hh & Hv) Hi.
  rewrite VerifyWithConfig_unfold, (eqb_empty_false _ Hs),
    (eqb_empty_false _ Hh), Hv.
  rewrite (absent_or_blank_field _ _ Hi). reflexivity.
Qed.

(** X4. A correctly signed mapping with a valid identifier but without the
    key [auth_date], or with an [auth_date] value that is empty or white
    space only, gives the auth_date-required error. *)
Theorem missing_auth_date_is_required_error :
  forall time_Now (query : Query) botToken config,
    correctly_signed query botToken ->
    valid_identifier query ->
    absent_or_blank query "auth_date" ->
    VerifyWithConfig time_Now query botToken config
    = (AuthData_zero, Some ErrTelegramAuthDateRequired).
Proof.
  intros time_Now query botToken config (Hs & Hh & Hv) Hid Ha.
  destruct (valid_identifier_parse query Hid) as (Hi & uid & Hp & Hpos).
  rewrite VerifyWithConfig_unfold, (eqb_empty_false _ Hs),
    (eqb_empty_false _ Hh), Hv, (eqb_empty_false _ Hi), Hp.
  destruct (Z.leb_spec uid 0); [lia|].
  rewrite (absent_or_blank_field _ _ Ha). reflexivity.
Qed.

(** X5. On a correctly signed mapping with a valid identifier, an
    [auth_date] that is not blank and does not read as a base-10 number of
    64 bits (letters, a fraction, a number beyond the int64 range) gives
    the auth_date-invalid error wrapped with the trimmed text of the
    field, and [errors.Is] recognises the sentinel in it. *)
Theorem malformed_auth_date_is_invalid_error :
  forall time_Now (query : Query) botToken config,
    correctly_signed query botToken ->
    valid_identifier query ->
    field query "auth_date" <> "" ->
    ~ parses query "auth_date" ->
    VerifyWithConfig time_Now query botToken config
    = (AuthData_zero,
       Some (Errorf ErrTelegramAuthDateInvalid (field query "auth_date")))
    /\ errors.Is (Errorf ErrTelegramAuthDateInvalid (field query "auth_date"))
                 ErrTelegramAuthDateInvalid = true.
Proof.
  intros time_Now query botToken config (Hs & Hh & Hv) Hid Ha Hbad.
  destruct (valid_identifier_parse query Hid) as (Hi & uid & Hp & Hpos).
  split; [|reflexivity].
  rewrite VerifyWithConfig_unfold, (eqb_empty_false _ Hs),
    (eqb_empty_false _ Hh), Hv, (eqb_empty_false _ Hi), Hp,
    (eqb_empty_false _ Ha).
  destruct (Z.leb_spec uid 0); [lia|].
  destruct (strconv.ParseInt (field query "auth_date")) as [ts [e|]] eqn:Ets;
    [reflexivity|].
  exfalso. apply Hbad. exists ts. apply ParseInt_spec. exact Ets.
Qed.

(** X6. A duration of the configuration that is zero or negative stands
    for the default, five minutes of age and thirty seconds of skew, not
    for no tolerance, each duration on its own and whatever the other one
    is; [Verify] is [VerifyWithConfig] under these defaults and the wall
    clock. *)
Theorem nonpositive_durations_mean_defaults :
  forall time_Now (query : Query) botToken ttl skew now,
    (ttl <= 0 ->
     VerifyWithConfig time_Now query botToken (mkVerifyConfig ttl skew now)
     = VerifyWithConfig time_Now query botToken
         (mkVerifyConfig 300000000000 skew now))
    /\ (skew <= 0 ->
        VerifyWithConfig time_Now query botToken (mkVerifyConfig ttl skew now)
        = VerifyWithConfig time_Now query botToken
            (mkVerifyConfig ttl 30000000000 now))
    /\ Verify time_Now query botToken
       = VerifyWithConfig time_Now query botToken
           (mkVerifyConfig 300000000000 30000000000 (Some time_Now)).
Proof.
  intros time_Now query botToken ttl skew now.
  unfold Verify. rewrite !VerifyWithConfig_unfold.
  unfold maxAge, maxSkew, clock, VerifyConfig_zero, DefaultAuthTTL,
    DefaultClockSkew.
  cbn [AuthTTL ClockSkew Now].
  split; [|split].
  - intros Httl. destruct (Z.leb_spec ttl 0); [reflexivity|lia].
  - intros Hskew. destruct (Z.leb_spec skew 0); [reflexivity|lia].
  - reflexivity.
Qed.

(** X12. The errors of the routine form a closed list: the seven bare
    sentinels, and the id-invalid and auth_date-invalid sentinels wrapped
    with the trimmed text of their own field.  No error carries the secret,
    the signature or the computed hash, and the two invalid sentinels are
    never returned bare. *)
Theorem errors_are_a_closed_list :
  forall time_Now (query : Query) botToken config err,
    snd (VerifyWithConfig time_Now query botToken config) = Some err ->
    In err (possible_errors query).
Proof.
  intros time_Now query botToken config err.
  rewrite VerifyWithConfig_unfold. unfold possible_errors.
  destruct (verifyHash query (secret_of botToken) (field query "hash"))
    as [e|] eqn:Ev; [apply verifyHash_error in Ev; subst e|];
    repeat case_match; cbn [snd]; intros [= <-]; simpl; tauto.
Qed.

(** X13. The adapter never looks past the first value of a key: replacing
    the values that follow it, for any key, leaves the result unchanged. *)
Theorem adapter_ignores_later_values :
  forall time_Now (values : url.Values) key v rest rest' botToken,
    VerifyURLValues time_Now (<[key := v :: rest]> values) botToken
    = VerifyURLValues time_Now (<[key := v :: rest']> values) botToken.
Proof.
  intros time_Now values key v rest rest' botToken.
  unfold VerifyURLValues.
  rewrite !(flatten_range_first_values _ _ (reflexivity _)).
  unfold first_values. rewrite !fmap_insert. reflexivity.
Qed.

(** X1. A correctly signed mapping whose identifier reads as a positive
    64-bit number and whose timestamp reads as a number inside the
    freshness window is accepted (clock sane, maximum age below the
    largest duration): the record holds the two numbers read and the
    display fields of the mapping. *)
Theorem fresh_signed_input_is_accepted :
  forall time_Now (query : Query) botToken config uid ts,
    wf_policy time_Now config ->
    sane (clock time_Now config) ->
    maxAge config < time.maxDuration ->
    correctly_signed query botToken ->
    decimal (field query "id") = Some uid -> int64 uid -> 0 < uid ->
    decimal (field query "auth_date") = Some ts -> int64 ts ->
    in_window time_Now config ts ->
    VerifyWithConfig time_Now query botToken config
    = (mkAuthData uid (index query "username") (index query "first_name")
                  (index query "last_name") (index query "photo_url") ts,
       None).
Proof.
  intros time_Now query botToken config uid ts Hwf Hsane Hmax
    (Hs & Hh & Hv) Hid Hir Hpos Hts Htr Hwin.
  pose proof (freshness_checks time_Now config ts Hwf Hsane Hmax Htr) as Hf.
  cbv zeta in Hf.
  assert (~ MaxInt64 < ts + time.unixToInternal) as Hnowrap.
  { destruct Hwf as (_ & Hskew & _).
    pose proof (maxSkew_range config Hskew) as Hsk.
    destruct Hsane as [[_ Hn] Hb]. unfold in_window, time.instant in Hwin.
    unfold MaxInt64, time.Second, time.unixToInternal in *. lia. }
  unfold in_window in Hwin.
  rewrite decide_False in Hf by exact Hnowrap.
  rewrite decide_False in Hf by lia. rewrite decide_False in Hf by lia.
  rewrite VerifyWithConfig_unfold, (eqb_empty_false _ Hs),
    (eqb_empty_false _ Hh), Hv,
    (eqb_empty_false _ (decimal_nonempty _ _ Hid)),
    (eqb_empty_false _ (decimal_nonempty _ _ Hts)),
    (proj2 (ParseInt_spec _ _) (conj Hid Hir)),
    (proj2 (ParseInt_spec _ _) (conj Hts Htr)).
  destruct (Z.leb_spec uid 0); [lia|].
  destruct (time.After _ _); [discriminate|].
  destruct (_ >? _); [discriminate|]. reflexivity.
Qed.

(** ** Signing and verifying *)

Lemma signQuery_range_expected (query : Query) entries :
  entries ≡ₚ map_to_list query ->
  signQuery_range entries
  = hex.EncodeToString (expected_mac query testBotToken).
Proof.
  intros Hp. unfold signQuery_range, expected_mac, canonical_check_string.
  rewrite (dataCheckPairs_order query entries Hp). reflexivity.
Qed.

Lemma length_bytes s : length (bytes s) = String.length s.
Proof.
  unfold bytes. rewrite List.length_map.
  induction s as [|c s IH]; simpl; congruence.
Qed.

Lemma Decode_length l b : hex.Decode l = Some b -> length l = (2 * length b)%nat.
Proof.
  revert b. induction l as [l IH] using (induction_ltof1 _ (@length Z)).
  unfold ltof in IH. intros b H.
  destruct l as [|p [|q rest]]; [injection H as <-; reflexivity|discriminate|].
  simpl in H.
  destruct (hex.fromHexChar p); [|discriminate].
  destruct (hex.fromHexChar q); [|discriminate].
  destruct (hex.Decode rest) as [out|] eqn:Hr; [|discriminate].
  injection H as <-. simpl. rewrite (IH rest) with (b := out); [lia|simpl; lia|exact Hr].
Qed.

Lemma Decode_digits l b :
  hex.Decode l = Some b -> Forall (fun c => is_Some (hex.fromHexChar c)) l.
Proof.
  revert b. induction l as [l IH] using (induction_ltof1 _ (@length Z)).
  unfold ltof in IH. intros b H.
  destruct l as [|p [|q rest]]; [constructor|discriminate|].
  simpl in H.
  destruct (hex.fromHexChar p) eqn:Hp; [|discriminate].
  destruct (hex.fromHexChar q) eqn:Hq; [|discriminate].
  destruct (hex.Decode rest) as [out|] eqn:Hr; [|discriminate].
  constructor; [rewrite Hp; eauto|]. constructor; [rewrite Hq; eauto|].
  eapply IH; [simpl; lia|exact Hr].
Qed.

(** X7. What [signQuery] signs, the verifier accepts: for every mapping and
    every order in which [signQuery] meets its entries, the mapping with
    the signature stored under [hash] is correctly signed for the test
    token, and the stored signature is read back unchanged. *)
Theorem signed_query_verifies :
  forall (query : Query) entries,
    entries ≡ₚ map_to_list query ->
    field (<["hash" := signQuery_range entries]> query) "hash"
    = signQuery_range entries
    /\ verifyHash (<["hash" := signQuery_range entries]> query) testBotToken
         (signQuery_range entries) = None
    /\ correctly_signed (<["hash" := signQuery_range entries]> query)
         testBotToken.
Proof.
  intros query entries Hp.
  rewrite (signQuery_range_expected query entries Hp).
  set (mac := expected_mac query testBotToken).
  assert (Forall is_byte mac) as Hb by apply hmac_Sum_range.
  assert (mac <> []) as Hne by apply hmac_Sum_nonempty.
  pose proof (EncodeToString_plain_ends mac Hb Hne) as Hpl.
  assert (field (<["hash" := hex.EncodeToString mac]> query) "hash"
          = hex.EncodeToString mac) as Hf.
  { unfold field. rewrite index_insert_eq. apply TrimSpace_plain, Hpl. }
  assert (verifyHash (<["hash" := hex.EncodeToString mac]> query) testBotToken
            (hex.EncodeToString mac) = None) as Hv.
  { apply verifyHash_iff. rewrite (TrimSpace_plain _ Hpl).
    rewrite expected_mac_insert_hash. apply DecodeString_EncodeToString, Hb. }
  split; [exact Hf|]. split; [exact Hv|].
  unfold correctly_signed. rewrite Hf.
  split; [by_computation|]. split.
  - intros E. apply (f_equal bytes) in E.
    rewrite bytes_EncodeToString in E by exact Hb.
    destruct mac; [congruence|discriminate].
  - replace (secret_of testBotToken) with testBotToken by by_computation.
    exact Hv.
Qed.

(** X8. The signature of [signQuery] does not depend on the order in which
    the map yields its entries, nor on a [hash] entry already stored in
    the mapping, and it is always 64 characters long. *)
Theorem signQuery_ignores_order_and_hash :
  forall (query : Query) entries h,
    entries ≡ₚ map_to_list (<["hash" := h]> query) ->
    signQuery_range entries = signQuery query
    /\ String.length (signQuery_range entries) = 64%nat.
Proof.
  intros query entries h Hp.
  rewrite (signQuery_range_expected _ entries Hp).
  unfold signQuery.
  rewrite (signQuery_range_expected query (map_to_list query) (reflexivity _)).
  rewrite expected_mac_insert_hash. split; [reflexivity|].
  rewrite <- length_bytes, bytes_EncodeToString by apply hmac_Sum_range.
  assert (forall b, length (flat_map hex_digits b) = (2 * length b)%nat) as Hl.
  { induction b as [|x b IH]; [reflexivity|].
    change (flat_map hex_digits (x :: b))
      with (hex_digits x ++ flat_map hex_digits b)%list.
    rewrite List.length_app, IH. simpl. lia. }
  rewrite Hl. unfold expected_mac, hmac.Sum. cbv zeta.
  rewrite Sum256_length. reflexivity.
Qed.

(** X10. The verifier never accepts a signature that, once trimmed, is not
    exactly 64 hexadecimal digits: an accepted signature decodes to the 32
    bytes of the HMAC-SHA256. *)
Theorem accepted_signature_has_64_hex_digits :
  forall entries botToken expectedHash,
    verifyHash_range entries botToken expectedHash = None ->
    String.length (strings.TrimSpace expectedHash) = 64%nat
    /\ Forall (fun c => is_Some (hex.fromHexChar c))
              (bytes (strings.TrimSpace expectedHash)).
Proof.
  intros entries botToken expectedHash. unfold verifyHash_range.
  destruct (hex.DecodeString (strings.TrimSpace expectedHash)) as [b|] eqn:Hd;
    [|discriminate].
  cbv zeta. destruct (hmac.Equal _ b) eqn:E; [|discriminate]. intros _.
  apply hmac_Equal_eq in E. unfold hex.DecodeString in Hd.
  split; [|eapply Decode_digits; exact Hd].
  rewrite <- length_bytes, (Decode_length _ _ Hd), <- E.
  unfold hmac.Sum. cbv zeta. rewrite Sum256_length. reflexivity.
Qed.

(** ** What the signature does not tell apart *)

Lemma append_assoc (a b c : string) : (a +:+ b) +:+ c = a +:+ (b +:+ c).
Proof.
  apply bytes_inj. rewrite !bytes_app. symmetry. apply List.app_assoc.
Qed.

Lemma verifyHash_same_check_string (q1 q2 : Query) tok h :
  canonical_check_string q1 = canonical_check_string q2 ->
  verifyHash q1 tok h = verifyHash q2 tok h.
Proof.
  intros E.
  assert (expected_mac q1 tok = expected_mac q2 tok) as Em
    by (unfold expected_mac; rewrite E; reflexivity).
  destruct (verifyHash q1 tok h) as [e1|] eqn:E1;
    destruct (verifyHash q2 tok h) as [e2|] eqn:E2.
  - apply verifyHash_error in E1, E2. congruence.
  - apply verifyHash_iff in E2. rewrite <- Em in E2.
    apply verifyHash_iff in E2. congruence.
  - apply verifyHash_iff in E1. rewrite Em in E1.
    apply verifyHash_iff in E1. congruence.
  - reflexivity.
Qed.

(** X11. The canonical check string does not keep field boundaries: a
    single field whose value continues with a newline and the text
    [key2=value2] has the check string of the two separate fields, so the
    verifier gives the same verdict on both mappings for every signature
    and secret. *)
Theorem newline_in_value_passes_for_two_fields :
  forall k1 v1 k2 v2 h0 botToken expectedHash,
    k1 <> "hash" -> k2 <> "hash" -> k1 <> k2 ->
    bytewise_le (k1 +:+ "=" +:+ v1) (k2 +:+ "=" +:+ v2) ->
    verifyHash
      (<["hash" := h0]> {[k1 := v1 +:+ newline +:+ k2 +:+ "=" +:+ v2]})
      botToken expectedHash
    = verifyHash (<["hash" := h0]> (<[k1 := v1]> {[k2 := v2]}))
        botToken expectedHash.
Proof.
  intros k1 v1 k2 v2 h0 botToken expectedHash H1 H2 H12 Hle.
  apply verifyHash_same_check_string.
  unfold canonical_check_string. rewrite !check_fields_insert_hash.
  assert (check_fields {[k1 := v1 +:+ newline +:+ k2 +:+ "=" +:+ v2]}
          = [k1 +:+ "=" +:+ v1 +:+ newline +:+ k2 +:+ "=" +:+ v2]) as ->.
  { unfold check_fields.
    rewrite delete_id by (apply lookup_singleton_ne; congruence).
    rewrite map_to_list_singleton. reflexivity. }
  rewrite (Strings_unique (check_fields (<[k1 := v1]> {[k2 := v2]}))
             [k1 +:+ "=" +:+ v1; k2 +:+ "=" +:+ v2]).
  - cbn [sort.Strings fold_right sort.insert strings.Join String.concat].
    rewrite !append_assoc. reflexivity.
  - unfold check_fields.
    rewrite delete_id
      by (rewrite lookup_insert_ne by congruence;
          apply lookup_singleton_ne; congruence).
    rewrite map_to_list_insert by (apply lookup_singleton_ne; congruence).
    rewrite map_to_list_singleton. reflexivity.
  - apply StronglySorted_bytewise.
    repeat constructor. exact Hle.
Qed.

(** ** White space around the secret *)

Lemma encoding_starts_with_lead w :
  In w space_encodings ->
  match w with [] => False | b :: _ => lead b end.
Proof.
  intros Hw. vm_compute in Hw.
  repeat destruct Hw as [<-|Hw]; try contradiction; unfold lead; lia.
Qed.

Lemma space2_lead b x : lead x -> strings.space2 b x = false.
Proof.
  unfold lead, strings.space2. intros H.
  destruct (Z.eqb_spec x 133); [lia|]. destruct (Z.eqb_spec x 160); [lia|].
  apply Bool.andb_false_r.
Qed.

Lemma space3_lead_second b x y : lead x -> strings.space3 b x y = false.
Proof.
  unfold lead, strings.space3. intros H.
  destruct (Z.eqb_spec x 154); [lia|]. destruct (Z.eqb_spec x 128); [lia|].
  destruct (Z.eqb_spec x 129); [lia|].
  rewrite !Bool.andb_false_r. reflexivity.
Qed.

Lemma space3_lead_third a b x : lead x -> strings.space3 a b x = false.
Proof.
  unfold lead, strings.space3. intros H.
  destruct (Z.eqb_spec x 128); [lia|]. destruct (Z.eqb_spec x 159); [lia|].
  destruct (Z.eqb_spec x 168); [lia|]. destruct (Z.eqb_spec x 169); [lia|].
  destruct (Z.eqb_spec x 175); [lia|].
  destruct (Z.leb_spec 128 x); [destruct (Z.leb_spec x 138); [lia|]|];
    rewrite ?Bool.andb_false_r; reflexivity.
Qed.

(** White space appended to a string that does not start with white space
    does not make it start with white space. *)
Lemma spaceWidth_app_blank c ws :
  c <> [] -> strings.spaceWidth c = O -> Blank space_encodings ws ->
  strings.spaceWidth (c ++ ws) = O.
Proof.
  intros Hne Hc Hws.
  destruct Hws as [|w s Hw _]; [rewrite List.app_nil_r; exact Hc|].
  pose proof (encoding_starts_with_lead w Hw) as Hlead.
  destruct w as [|x w]; [contradiction|].
  destruct c as [|b1 [|b2 [|b3 c]]]; [congruence|..].
  - simpl in Hc. destruct (strings.asciiSpace b1) eqn:E1; [discriminate|].
    change (([b1] ++ (x :: w) ++ s)%list) with (b1 :: x :: (w ++ s)%list).
    unfold strings.spaceWidth. rewrite E1, (space2_lead b1 x Hlead).
    destruct (w ++ s)%list; [reflexivity|].
    rewrite (space3_lead_second b1 x _ Hlead). reflexivity.
  - simpl in Hc. destruct (strings.asciiSpace b1) eqn:E1; [discriminate|].
    destruct (strings.space2 b1 b2) eqn:E2; [discriminate|].
    change (([b1; b2] ++ (x :: w) ++ s)%list)
      with (b1 :: b2 :: x :: (w ++ s)%list).
    unfold strings.spaceWidth.
    rewrite E1, E2, (space3_lead_third b1 b2 x Hlead). reflexivity.
  - exact Hc.
Qed.

Lemma trim_bytes_pad ws1 s ws2 :
  Blank space_encodings ws1 -> Blank space_encodings ws2 ->
  strings.TrimRight (strings.TrimLeft (ws1 ++ s ++ ws2))
  = strings.TrimRight (strings.TrimLeft s).
Proof.
  intros H1 H2. rewrite TrimLeft_blank by exact H1.
  destruct (TrimLeft_split s) as (a & Ha & Hs & Hw).
  revert Hs Hw. generalize (strings.TrimLeft s). intros c Hs Hw.
  rewrite Hs, <- List.app_assoc, TrimLeft_blank by exact Ha.
  destruct c as [|b c'].
  - simpl. rewrite <- (List.app_nil_r ws2), TrimLeft_blank by exact H2.
    reflexivity.
  - rewrite TrimLeft_stop
      by (apply spaceWidth_app_blank; [discriminate|exact Hw|exact H2]).
    apply TrimRight_blank, H2.
Qed.

(** White space around any string is removed by [TrimSpace] with the
    white space of the string's own ends. *)
Lemma TrimSpace_pad ws1 s ws2 :
  only_space ws1 -> only_space ws2 ->
  strings.TrimSpace (ws1 +:+ s +:+ ws2) = strings.TrimSpace s.
Proof.
  intros H1 H2. unfold strings.TrimSpace.
  rewrite !bytes_app, trim_bytes_pad by assumption. reflexivity.
Qed.

(** X14. White space around the secret is ignored: the secret with white
    space before and after it (a trailing line feed, say) gives the result
    of the secret itself, for every input and policy. *)
Theorem padded_secret_is_the_secret :
  forall time_Now (query : Query) botToken config ws1 ws2,
    only_space ws1 -> only_space ws2 ->
    VerifyWithConfig time_Now query (ws1 +:+ botToken +:+ ws2) config
    = VerifyWithConfig time_Now query botToken config.
Proof.
  intros time_Now query botToken config ws1 ws2 H1 H2.
  rewrite !VerifyWithConfig_unfold. unfold secret_of.
  rewrite (TrimSpace_pad ws1 botToken ws2 H1 H2). reflexivity.
Qed.

(** ** Letter case of the signature *)

Lemma Decode_ext l1 l2 :
  List.map hex.fromHexChar l1 = List.map hex.fromHexChar l2 ->
  hex.Decode l1 = hex.Decode l2.
Proof.
  revert l2. induction l1 as [l1 IH] using (induction_ltof1 _ (@length Z)).
  unfold ltof in IH. intros l2 H.
  destruct l1 as [|p1 [|q1 r1]]; destruct l2 as [|p2 [|q2 r2]];
    try discriminate; try reflexivity.
  simpl in H. injection H as Hp Hq Hr.
  simpl. rewrite Hp, Hq, (IH r1 ltac:(simpl; lia) r2 Hr). reflexivity.
Qed.

Lemma hex_digits_TrimSpace h :
  Forall (fun c => is_Some (hex.fromHexChar c)) (bytes h) ->
  strings.TrimSpace h = h.
Proof.
  intros H. destruct (bytes h) as [|b l] eqn:E.
  - apply bytes_nil in E. subst h. reflexivity.
  - apply TrimSpace_plain. rewrite E. apply Forall_plain_ends; [|discriminate].
    eapply Forall_impl; [exact H|].
    intros c [a Ha]. eapply fromHexChar_plain, Ha.
Qed.

(** X9. The verifier reads the signature digit by digit, whatever the
    letter case: two signatures made of hexadecimal digits that denote the
    same digits position by position (the upper-case and the lower-case
    writing of a digest, say) get the same verdict. *)
Theorem signature_letter_case_is_ignored :
  forall entries botToken h1 h2,
    Forall (fun c => is_Some (hex.fromHexChar c)) (bytes h1) ->
    List.map hex.fromHexChar (bytes h1) = List.map hex.fromHexChar (bytes h2) ->
    verifyHash_range entries botToken h1 = verifyHash_range entries botToken h2.
Proof.
  intros entries botToken h1 h2 H1 Heq.
  assert (Forall (fun c => is_Some (hex.fromHexChar c)) (bytes h2)) as H2.
  { apply Forall_forall. intros c Hc.
    apply list_elem_of_In, (in_map hex.fromHexChar) in Hc.
    rewrite <- Heq in Hc. apply in_map_iff in Hc as (c' & <- & Hc').
    rewrite Forall_forall in H1. apply H1, list_elem_of_In, Hc'. }
  unfold verifyHash_range.
  rewrite (hex_digits_TrimSpace h1 H1), (hex_digits_TrimSpace h2 H2).
  unfold hex.DecodeString. rewrite (Decode_ext _ _ Heq). reflexivity.
Qed.

(** ** The adapter on single-valued containers *)

(** X15. On a container in which every key has exactly one value the
    adapter is [Verify] on the mapping of these values. *)
Theorem adapter_on_single_values_is_Verify :
  forall time_Now (query : Query) botToken,
    VerifyURLValues time_Now ((fun v => [v]) <$> query) botToken
    = Verify time_Now query botToken.
Proof.
  intros time_Now query botToken. unfold VerifyURLValues.
  rewrite (flatten_range_first_values _ _ (reflexivity _)).
  unfold first_values. rewrite <- map_fmap_compose.
  rewrite (map_fmap_ext _ id) by reflexivity.
  rewrite map_fmap_id. reflexivity.
Qed.

(** * The further properties at concrete inputs *)

Lemma fresh_signed_input_is_accepted_witness :
  wf_policy Witness.clock_now Example.config
  /\ sane (clock Witness.clock_now Example.config)
  /\ maxAge Example.config < time.maxDuration
  /\ correctly_signed Witness.query Example.token
  /\ in_window Witness.clock_now Example.config 1800000000
  /\ VerifyWithConfig Witness.clock_now Witness.query Example.token
       Example.config
     = (mkAuthData 42 (index Witness.query "username")
                   (index Witness.query "first_name")
                   (index Witness.query "last_name")
                   (index Witness.query "photo_url") 1800000000, None).
Proof.
  assert (wf_policy Witness.clock_now Example.config) as H1 by by_computation.
  assert (sane (clock Witness.clock_now Example.config)) as H2
    by by_computation.
  assert (maxAge Example.config < time.maxDuration) as H3 by by_computation.
  assert (correctly_signed Witness.query Example.token) as H4
    by (unfold correctly_signed; by_computation).
  assert (in_window Witness.clock_now Example.config 1800000000) as H5
    by by_computation.
  split; [exact H1|]. split; [exact H2|]. split; [exact H3|].
  split; [exact H4|]. split; [exact H5|].
  apply (fresh_signed_input_is_accepted Witness.clock_now Witness.query
           Example.token Example.config 42 1800000000 H1 H2 H3 H4);
    solve [by_computation | exact H5].
Defined.

Lemma missing_hash_is_required_error_witness :
  secret_of Example.token <> "" /\ absent_or_blank Sample.no_hash "hash"
  /\ VerifyWithConfig Witness.clock_now Sample.no_hash Example.token
       Example.config
     = (AuthData_zero, Some ErrTelegramHashRequired).
Proof.
  assert (secret_of Example.token <> "") as H1 by by_computation.
  assert (absent_or_blank Sample.no_hash "hash") as H2
    by (vm_compute; exact I).
  split; [exact H1|]. split; [exact H2|].
  exact (missing_hash_is_required_error Witness.clock_now Sample.no_hash
           Example.token Example.config H1 H2).
Defined.

Lemma missing_id_is_required_error_witness :
  correctly_signed Sample.no_id Example.token
  /\ absent_or_blank Sample.no_id "id"
  /\ VerifyWithConfig Witness.clock_now Sample.no_id Example.token
       Example.config
     = (AuthData_zero, Some ErrTelegramIDRequired).
Proof.
  assert (correctly_signed Sample.no_id Example.token) as H1
    by (unfold correctly_signed; by_computation).
  assert (absent_or_blank Sample.no_id "id") as H2 by (vm_compute; exact I).
  split; [exact H1|]. split; [exact H2|].
  exact (missing_id_is_required_error Witness.clock_now Sample.no_id
           Example.token Example.config H1 H2).
Defined.

Lemma missing_auth_date_is_required_error_witness :
  correctly_signed Sample.no_auth_date Example.token
  /\ valid_identifier Sample.no_auth_date
  /\ absent_or_blank Sample.no_auth_date "auth_date"
  /\ VerifyWithConfig Witness.clock_now Sample.no_auth_date Example.token
       Example.config
     = (AuthData_zero, Some ErrTelegramAuthDateRequired).
Proof.
  assert (correctly_signed Sample.no_auth_date Example.token) as H1
    by (unfold correctly_signed; by_computation).
  assert (valid_identifier Sample.no_auth_date) as H2
    by (exists 42; by_computation).
  assert (absent_or_blank Sample.no_auth_date "auth_date") as H3
    by (vm_compute; exact I).
  split; [exact H1|]. split; [exact H2|]. split; [exact H3|].
  exact (missing_auth_date_is_required_error Witness.clock_now
           Sample.no_auth_date Example.token Example.config H1 H2 H3).
Defined.

Lemma malformed_auth_date_is_invalid_error_witness :
  correctly_signed Sample.bad_auth_date Example.token
  /\ valid_identifier Sample.bad_auth_date
  /\ field Sample.bad_auth_date "auth_date" <> ""
  /\ ~ parses Sample.bad_auth_date "auth_date"
  /\ VerifyWithConfig Witness.clock_now Sample.bad_auth_date Example.token
       Example.config
     = (AuthData_zero, Some (Errorf ErrTelegramAuthDateInvalid "yesterday")).
Proof.
  assert (correctly_signed Sample.bad_auth_date Example.token) as H1
    by (unfold correctly_signed; by_computation).
  assert (valid_identifier Sample.bad_auth_date) as H2
    by (exists 42; by_computation).
  assert (field Sample.bad_auth_date "auth_date" <> "") as H3
    by by_computation.
  assert (~ parses Sample.bad_auth_date "auth_date") as H4
    by (intros (v & Hv & _); vm_compute in Hv; discriminate).
  split; [exact H1|]. split; [exact H2|]. split; [exact H3|].
  split; [exact H4|].
  exact (proj1 (malformed_auth_date_is_invalid_error Witness.clock_now
                  Sample.bad_auth_date Example.token Example.config
                  H1 H2 H3 H4)).
Defined.

Lemma nonpositive_durations_mean_defaults_witness :
  -1 <= 0
  /\ VerifyWithConfig Witness.clock_now Witness.query Example.token
       (mkVerifyConfig (-1) 10000000000 None)
     = VerifyWithConfig Witness.clock_now Witness.query Example.token
         (mkVerifyConfig 300000000000 10000000000 None)
  /\ 0 <= 0
  /\ VerifyWithConfig Witness.clock_now Witness.query Example.token
       (mkVerifyConfig 60000000000 0 None)
     = VerifyWithConfig Witness.clock_now Witness.query Example.token
         (mkVerifyConfig 60000000000 30000000000 None).
Proof.
  assert (-1 <= 0) as H1 by by_computation.
  assert (0 <= 0) as H2 by by_computation.
  split; [exact H1|].
  split; [exact (proj1 (nonpositive_durations_mean_defaults Witness.clock_now
                          Witness.query Example.token (-1) 10000000000 None)
                   H1)|].
  split; [exact H2|].
  exact (proj1 (proj2 (nonpositive_durations_mean_defaults Witness.clock_now
                         Witness.query Example.token 60000000000 0 None))
           H2).
Defined.

Lemma signed_query_verifies_witness :
  rev (map_to_list Example.fields) ≡ₚ map_to_list Example.fields
  /\ verifyHash
       (<["hash" := signQuery_range (rev (map_to_list Example.fields))]>
          Example.fields)
       testBotToken (signQuery_range (rev (map_to_list Example.fields)))
     = None.
Proof.
  assert (rev (map_to_list Example.fields) ≡ₚ map_to_list Example.fields)
    as H1 by (symmetry; apply Permutation_rev).
  split; [exact H1|].
  exact (proj1 (proj2 (signed_query_verifies Example.fields _ H1))).
Defined.

Lemma signQuery_ignores_order_and_hash_witness :
  Sample.shuffled ≡ₚ map_to_list (<["hash" := "stale"]> Example.fields)
  /\ signQuery_range Sample.shuffled = signQuery Example.fields.
Proof.
  assert (Sample.shuffled
          ≡ₚ map_to_list (<["hash" := "stale"]> Example.fields)) as H1
    by (symmetry; apply Permutation_rev).
  split; [exact H1|].
  exact (proj1 (signQuery_ignores_order_and_hash Example.fields
                  Sample.shuffled "stale" H1)).
Defined.

Lemma signature_letter_case_is_ignored_witness :
  Forall (fun c => is_Some (hex.fromHexChar c))
         (bytes (Example.sign Example.fields))
  /\ List.map hex.fromHexChar (bytes (Example.sign Example.fields))
     = List.map hex.fromHexChar (bytes Sample.upper_hash)
  /\ verifyHash_range (map_to_list Example.fields) Example.token
       (Example.sign Example.fields)
     = verifyHash_range (map_to_list Example.fields) Example.token
         Sample.upper_hash.
Proof.
  assert (Forall (fun c => is_Some (hex.fromHexChar c))
                 (bytes (Example.sign Example.fields))) as H1.
  { apply (Decode_digits _ (expected_mac Example.fields Example.token)).
    by_computation. }
  assert (List.map hex.fromHexChar (bytes (Example.sign Example.fields))
          = List.map hex.fromHexChar (bytes Sample.upper_hash)) as H2
    by by_computation.
  split; [exact H1|]. split; [exact H2|].
  exact (signature_letter_case_is_ignored (map_to_list Example.fields)
           Example.token _ _ H1 H2).
Defined.

Lemma accepted_signature_has_64_hex_digits_witness :
  verifyHash_range (map_to_list Example.fields) Example.token
    (Example.sign Example.fields) = None
  /\ String.length (strings.TrimSpace (Example.sign Example.fields)) = 64%nat.
Proof.
  assert (verifyHash_range (map_to_list Example.fields) Example.token
            (Example.sign Example.fields) = None) as H1 by by_computation.
  split; [exact H1|].
  exact (proj1 (accepted_signature_has_64_hex_digits _ _ _ H1)).
Defined.

Lemma newline_in_value_passes_for_two_fields_witness :
  "auth_date" <> "hash" /\ "id" <> "hash" /\ "auth_date" <> "id"
  /\ bytewise_le ("auth_date" +:+ "=" +:+ "1800000000") ("id" +:+ "=" +:+ "42")
  /\ verifyHash
       (<["hash" := "00"]>
          {["auth_date" := "1800000000" +:+ newline +:+ "id" +:+ "=" +:+ "42"]})
       Example.token "00"
     = verifyHash
         (<["hash" := "00"]> (<["auth_date" := "1800000000"]> {["id" := "42"]}))
         Example.token "00".
Proof.
  assert ("auth_date" <> "hash") as H1 by discriminate.
  assert ("id" <> "hash") as H2 by discriminate.
  assert ("auth_date" <> "id") as H3 by discriminate.
  assert (bytewise_le ("auth_date" +:+ "=" +:+ "1800000000")
                      ("id" +:+ "=" +:+ "42")) as H4
    by (vm_compute; left; reflexivity).
  split; [exact H1|]. split; [exact H2|]. split; [exact H3|].
  split; [exact H4|].
  exact (newline_in_value_passes_for_two_fields "auth_date" "1800000000"
           "id" "42" "00" Example.token "00" H1 H2 H3 H4).
Defined.

Lemma errors_are_a_closed_list_witness :
  snd (VerifyWithConfig Witness.clock_now Witness.not_hex Example.token
         Example.config) = Some ErrTelegramHashInvalid
  /\ In ErrTelegramHashInvalid (possible_errors Witness.not_hex).
Proof.
  assert (snd (VerifyWithConfig Witness.clock_now Witness.not_hex
                 Example.token Example.config)
          = Some ErrTelegramHashInvalid) as H1 by by_computation.
  split; [exact H1|].
  exact (errors_are_a_closed_list Witness.clock_now Witness.not_hex
           Example.token Example.config _ H1).
Defined.

Lemma padded_secret_is_the_secret_witness :
  only_space "" /\ only_space newline
  /\ VerifyWithConfig Witness.clock_now Witness.query
       ("" +:+ Example.token +:+ newline) Example.config
     = VerifyWithConfig Witness.clock_now Witness.query Example.token
         Example.config.
Proof.
  assert (only_space "") as H1 by constructor.
  assert (only_space newline) as H2.
  { unfold only_space. change (bytes newline) with ([10] ++ [])%list.
    apply Blank_cons; [in_concrete|constructor]. }
  split; [exact H1|]. split; [exact H2|].
  exact (padded_secret_is_the_secret Witness.clock_now Witness.query
           Example.token Example.config "" newline H1 H2).
Defined.
